(** * spot-mapper: the share-link codec, the viewport fitter and the location store

    A shallow embedding of [src/utils/base64.ts] (the transport codec) and of
    the state handling of [src/App.tsx] (location store, share link, focus
    timer and the [mapBounds] viewport fitter), together with the platform
    functions they call ([btoa], [atob], [parseFloat], [String.prototype.trim],
    [Math.min], [Math.max], [setTimeout]); then of the panel's buttons, of
    [src/components/MapComponent.tsx] (the click handler, the pending form
    and the rule that opens a popup), of [UserProfileForm.tsx], of
    [calculateDays] of [TripCard.tsx] and of [AddTripForm.tsx].

    Conventions.
    - A JavaScript string is the list of its UTF-16 code units ([list N]).
    - A JavaScript number is [NaN], an infinity, or a finite value carried by
      an exact rational: rounding of doubles is not modelled, comparisons and
      the special values are.
    - A thrown exception is the [Err] branch of [result].
    - The application runs in a browser, where [btoa] and [atob] are defined:
      the codec's [Buffer] branches for Node.js are not modelled.
    - [JSON.stringify] and [JSON.parse] are parameters of the codec, which is
      generic in the type [T] of the encoded data as the TypeScript functions
      are; [Module Json] gives a concrete instance on JSON values, and
      [Module Locations] one on location lists.
    - A handler is a function from the component's state to the new state and
      the effects it causes (alerts, a clipboard write, a timer).
    - Pending timers are the list of their due times ([App.World]). *)

From Stdlib Require Import String Ascii DecimalString.
From Stdlib Require Import List Bool Arith ZArith NArith QArith Qabs Qround.
From Stdlib Require Import Lia Lqa.
Import ListNotations.
Close Scope Q_scope.

(* ================================================================= *)
(** * Part I: definitions *)
(* ================================================================= *)

(** ** Results of computations that may throw *)

Inductive result (E A : Type) : Type :=
| Ok (a : A)
| Err (e : E).
Arguments Ok {E A} a.
Arguments Err {E A} e.

Definition bind {E A B} (r : result E A) (k : A -> result E B) : result E B :=
  match r with
  | Ok a => k a
  | Err e => Err e
  end.

Notation "'let*' x ':=' r 'in' k" := (bind r (fun x => k))
  (at level 10, x name, r at level 100, k at level 200).

(** ** The JavaScript platform *)

Module JS.

(** *** Strings *)

Definition jsstring := list N.

(** An ASCII literal as a JavaScript string. *)
Definition lit (s : string) : jsstring :=
  map N_of_ascii (list_ascii_of_string s).

Fixpoint str_eqb (s t : jsstring) : bool :=
  match s, t with
  | [], [] => true
  | c :: s', d :: t' => N.eqb c d && str_eqb s' t'
  | _, _ => false
  end.

(** [str.replace(/c/g, d)] for single code units [c] and [d]. *)
Definition replace_all (c d : N) (s : jsstring) : jsstring :=
  map (fun x => if N.eqb x c then d else x) s.

(** [str.replace(/c/g, '')]. *)
Definition remove_all (c : N) (s : jsstring) : jsstring :=
  filter (fun x => negb (N.eqb x c)) s.

(** A string is truthy when it is not empty. *)
Definition truthy (s : jsstring) : bool :=
  match s with
  | [] => false
  | _ :: _ => true
  end.

(** *** Exceptions thrown by the platform *)

Inductive exception : Type :=
| TypeError
| SyntaxError
| InvalidCharacterError.

(** *** btoa and atob (HTML standard, forgiving-base64) *)

Definition b64_alphabet : jsstring :=
  lit "ABCDEFGHIJKLMNOPQRSTUVWXYZabcdefghijklmnopqrstuvwxyz0123456789+/".

(** The character of a six-bit value. *)
Definition b64_char (i : N) : N := nth (N.to_nat i) b64_alphabet 0%N.

(** The six-bit value of a character of the alphabet. *)
Definition b64_value (c : N) : option N :=
  if (65 <=? c)%N && (c <=? 90)%N then Some (c - 65)%N
  else if (97 <=? c)%N && (c <=? 122)%N then Some (c - 97 + 26)%N
  else if (48 <=? c)%N && (c <=? 57)%N then Some (c - 48 + 52)%N
  else if (c =? 43)%N then Some 62%N
  else if (c =? 47)%N then Some 63%N
  else None.

Definition pad_char : N := 61%N.

Fixpoint b64_encode (bytes : list N) : jsstring :=
  match bytes with
  | [] => []
  | [a] =>
      [b64_char (a / 4); b64_char ((a mod 4) * 16); pad_char; pad_char]%N
  | [a; b] =>
      [b64_char (a / 4); b64_char ((a mod 4) * 16 + b / 16);
       b64_char ((b mod 16) * 4); pad_char]%N
  | a :: b :: c :: rest =>
      b64_char (a / 4)%N
      :: b64_char ((a mod 4) * 16 + b / 16)%N
      :: b64_char ((b mod 16) * 4 + c / 64)%N
      :: b64_char (c mod 64)%N
      :: b64_encode rest
  end.

(** A string [btoa] accepts: every code unit is at most U+00FF. *)
Definition latin1 (s : jsstring) : Prop :=
  forallb (fun c => (c <=? 255)%N) s = true.

(** [btoa] throws on a code unit above U+00FF and otherwise encodes the code
    units as bytes. *)
Definition btoa (s : jsstring) : result exception jsstring :=
  if forallb (fun c => (c <=? 255)%N) s then Ok (b64_encode s)
  else Err InvalidCharacterError.

Definition is_ascii_whitespace (c : N) : bool :=
  existsb (N.eqb c) [9; 10; 12; 13; 32]%N.

(** Removes one or two [=] that end the string. *)
Fixpoint drop_trailing_pad (s : jsstring) : jsstring :=
  match s with
  | [] => []
  | c :: r =>
      if N.eqb c pad_char
         && match r with
            | [] => true
            | [d] => N.eqb d pad_char
            | _ => false
            end
      then []
      else c :: drop_trailing_pad r
  end.

Fixpoint b64_values (s : jsstring) : option (list N) :=
  match s with
  | [] => Some []
  | c :: r =>
      match b64_value c, b64_values r with
      | Some v, Some vs => Some (v :: vs)
      | _, _ => None
      end
  end.

(** Six-bit values back to bytes; the bits left over after the last whole
    byte are discarded. *)
Fixpoint b64_bytes (v : list N) : list N :=
  match v with
  | a :: b :: c :: d :: rest =>
      (a * 4 + b / 16)%N :: ((b mod 16) * 16 + c / 4)%N
      :: ((c mod 4) * 64 + d)%N :: b64_bytes rest
  | [a; b; c] => [a * 4 + b / 16; (b mod 16) * 16 + c / 4]%N
  | [a; b] => [a * 4 + b / 16]%N
  | _ => []
  end.

Definition atob (s : jsstring) : result exception jsstring :=
  let data := filter (fun c => negb (is_ascii_whitespace c)) s in
  let data :=
    if Nat.eqb (length data mod 4) 0 then drop_trailing_pad data else data in
  if Nat.eqb (length data mod 4) 1 then Err InvalidCharacterError
  else match b64_values data with
       | Some v => Ok (b64_bytes v)
       | None => Err InvalidCharacterError
       end.

(** *** Numbers *)

Inductive number : Type :=
| NaN
| NegInfinity
| Num (q : Q)
| PosInfinity.

Definition isNaN (x : number) : bool :=
  match x with
  | NaN => true
  | _ => false
  end.

(** [x < y]; every comparison with [NaN] is false. *)
Definition num_ltb (x y : number) : bool :=
  match x, y with
  | NaN, _ | _, NaN => false
  | NegInfinity, NegInfinity => false
  | NegInfinity, _ => true
  | _, NegInfinity => false
  | PosInfinity, _ => false
  | _, PosInfinity => true
  | Num p, Num q => negb (Qle_bool q p)
  end.

(** [x > y]. *)
Definition num_gtb (x y : number) : bool := num_ltb y x.

(** [x <= y]. *)
Definition num_leb (x y : number) : bool :=
  match x, y with
  | NaN, _ | _, NaN => false
  | NegInfinity, _ => true
  | _, NegInfinity => false
  | _, PosInfinity => true
  | PosInfinity, _ => false
  | Num p, Num q => Qle_bool p q
  end.

(** [x === y] on numbers. *)
Definition num_eqb (x y : number) : bool :=
  match x, y with
  | NegInfinity, NegInfinity => true
  | PosInfinity, PosInfinity => true
  | Num p, Num q => Qeq_bool p q
  | _, _ => false
  end.

Definition num_neg (x : number) : number :=
  match x with
  | NaN => NaN
  | NegInfinity => PosInfinity
  | Num q => Num (- q)%Q
  | PosInfinity => NegInfinity
  end.

Definition num_add (x y : number) : number :=
  match x, y with
  | NaN, _ | _, NaN => NaN
  | NegInfinity, PosInfinity | PosInfinity, NegInfinity => NaN
  | NegInfinity, _ | _, NegInfinity => NegInfinity
  | PosInfinity, _ | _, PosInfinity => PosInfinity
  | Num p, Num q => Num (p + q)%Q
  end.

Definition num_sub (x y : number) : number := num_add x (num_neg y).

(** [x / 2]. *)
Definition num_half (x : number) : number :=
  match x with
  | Num q => Num (q / 2)%Q
  | other => other
  end.

Definition num_min (x y : number) : number :=
  match x, y with
  | NaN, _ | _, NaN => NaN
  | _, _ => if num_ltb y x then y else x
  end.

Definition num_max (x y : number) : number :=
  match x, y with
  | NaN, _ | _, NaN => NaN
  | _, _ => if num_ltb x y then y else x
  end.

(** [Math.min(...xs)] and [Math.max(...xs)]: with no argument they are
    [Infinity] and [-Infinity]. *)
Definition Math_min (xs : list number) : number :=
  fold_right num_min PosInfinity xs.

Definition Math_max (xs : list number) : number :=
  fold_right num_max NegInfinity xs.

(** *** Whitespace, trim and parseFloat *)

(** WhiteSpace and LineTerminator code units (ECMAScript [StrWhiteSpaceChar]). *)
Definition is_js_whitespace (c : N) : bool :=
  existsb (N.eqb c)
    [9; 10; 11; 12; 13; 32; 160; 5760; 8232; 8233; 8239; 8287; 12288; 65279]%N
  || ((8192 <=? c)%N && (c <=? 8202)%N).

Fixpoint trimStart (s : jsstring) : jsstring :=
  match s with
  | [] => []
  | c :: r => if is_js_whitespace c then trimStart r else s
  end.

Definition trim (s : jsstring) : jsstring :=
  rev (trimStart (rev (trimStart s))).

Definition is_digit (c : N) : bool := (48 <=? c)%N && (c <=? 57)%N.

(** The longest prefix of decimal digits, and the rest. *)
Fixpoint span_digits (s : jsstring) : jsstring * jsstring :=
  match s with
  | c :: r =>
      if is_digit c
      then let (ds, rest) := span_digits r in (c :: ds, rest)
      else ([], s)
  | [] => ([], [])
  end.

(** The value of a string of decimal digits. *)
Definition digits_value (ds : jsstring) : N :=
  fold_left (fun acc c => (acc * 10 + (c - 48))%N) ds 0%N.

Fixpoint starts_with (p s : jsstring) : bool :=
  match p, s with
  | [], _ => true
  | c :: p', d :: s' => N.eqb c d && starts_with p' s'
  | _ :: _, [] => false
  end.

(** An optional exponent part [e], [e+] or [e-] followed by digits: its value
    and the rest, or [None] when there is no well-formed exponent. *)
Definition exponent_part (s : jsstring) : option (Z * jsstring) :=
  match s with
  | c :: r =>
      if N.eqb c 101 || N.eqb c 69 then
        let (neg, r') :=
          match r with
          | d :: r1 =>
              if N.eqb d 45 then (true, r1)
              else if N.eqb d 43 then (false, r1)
              else (false, r)
          | [] => (false, r)
          end in
        let (ds, rest) := span_digits r' in
        match ds with
        | [] => None
        | _ :: _ =>
            let e := Z.of_N (digits_value ds) in
            Some (if neg then (- e)%Z else e, rest)
        end
      else None
  | [] => None
  end.

(** The rational [ip.fp * 10^e] for digit strings [ip] and [fp]. *)
Definition decimal_value (ip fp : jsstring) (e : Z) : Q :=
  Qred ((Z.of_N (digits_value (ip ++ fp)) # 1)
        * Qpower 10 (e - Z.of_nat (length fp)))%Q.

(** [parseFloat]: leading whitespace is skipped and the longest prefix that is
    a decimal literal is converted; [NaN] when there is none. *)
Definition parseFloat (s : jsstring) : number :=
  let s := trimStart s in
  let (neg, s) :=
    match s with
    | c :: r =>
        if N.eqb c 45 then (true, r)
        else if N.eqb c 43 then (false, r)
        else (false, s)
    | [] => (false, s)
    end in
  if starts_with (lit "Infinity") s
  then (if neg then NegInfinity else PosInfinity)
  else
    let (ip, s1) := span_digits s in
    let (fp, s2) :=
      match s1 with
      | c :: r => if N.eqb c 46 then span_digits r else ([], s1)
      | [] => ([], s1)
      end in
    match ip ++ fp with
    | [] => NaN
    | _ :: _ =>
        let e :=
          match exponent_part s2 with
          | Some (e, _) => e
          | None => 0%Z
          end in
        let q := decimal_value ip fp e in
        Num (if neg then (- q)%Q else q)
    end.

(** *** JSON.stringify and JSON.parse, as seen by their callers *)

(** [JSON.stringify(v)] returns a string, returns [undefined] (for
    [undefined], a function or a symbol), or throws a [TypeError] (a reference
    cycle, a BigInt). *)
Inductive stringified : Type :=
| Text (s : jsstring)
| Undefined
| Throws (e : exception).

(** Passing the outcome on as a string argument: [undefined] is converted to
    the string ["undefined"]. *)
Definition as_string_argument (r : stringified) : result exception jsstring :=
  match r with
  | Text s => Ok s
  | Undefined => Ok (lit "undefined")
  | Throws e => Err e
  end.

End JS.

(** ** src/utils/base64.ts *)

Module Base64.
Import JS.

(** The two errors the module throws: [new Error('Failed to encode data to
    base64: ...')] and [new Error('Failed to decode base64 string: ...')],
    each with the exception it caught. *)
Inductive error : Type :=
| FailedToEncode (cause : exception)
| FailedToDecode (cause : exception).

Definition is_alnum (c : N) : bool :=
  ((65 <=? c)%N && (c <=? 90)%N)
  || ((97 <=? c)%N && (c <=? 122)%N)
  || ((48 <=? c)%N && (c <=? 57)%N).

(** The class [[A-Za-z0-9+/]]. *)
Definition is_base64_char (c : N) : bool :=
  is_alnum c || N.eqb c 43 || N.eqb c 47.

(** [/^[A-Za-z0-9+/]*={0,2}$/.test(str)] *)
Fixpoint base64Pattern_test (str : jsstring) : bool :=
  match str with
  | [] => true
  | c :: r =>
      if is_base64_char c then base64Pattern_test r
      else str_eqb str [pad_char] || str_eqb str [pad_char; pad_char]
  end.

(** The "Add padding if needed" step of [decodeFromUrlSafeBase64]. *)
Definition addPadding (base64 : jsstring) : jsstring :=
  let padding := 4 - (length base64 mod 4) in
  if negb (Nat.eqb padding 4) then base64 ++ repeat 61%N padding
  else base64.

Section Codec.

Context {T : Type}.
Variable JSON_stringify : T -> stringified.
Variable JSON_parse : jsstring -> option T.

(** The [try] block, in the branch where [btoa] is defined, and its
    [catch], which wraps whatever was thrown. *)
Definition encodeToBase64 (data : T) : result error jsstring :=
  match (let* jsonString := as_string_argument (JSON_stringify data) in
         btoa jsonString) with
  | Ok base64 => Ok base64
  | Err e => Err (FailedToEncode e)
  end.

(** [atob], then [JSON.parse]; the [catch] wraps whatever was thrown. *)
Definition decodeFromBase64 (base64String : jsstring) : result error T :=
  match (let* jsonString := atob base64String in
         match JSON_parse jsonString with
         | Some v => Ok v
         | None => Err SyntaxError
         end) with
  | Ok v => Ok v
  | Err e => Err (FailedToDecode e)
  end.



(** The pattern check, then decoding and re-encoding; an exception on the
    way gives [false]. *)
Definition isValidBase64 (str : jsstring) : bool :=
  if negb (base64Pattern_test str) then false
  else
    match (let* decoded := decodeFromBase64 str in
           let* reencoded := encodeToBase64 decoded in
           Ok (str_eqb reencoded str)) with
    | Ok b => b
    | Err _ => false
    end.

(** No [try] here: an error of [encodeToBase64] propagates to the caller.
    The code units are [+] 43, [-] 45, [/] 47, [_] 95 and [=] 61. *)
Definition encodeToUrlSafeBase64 (data : T) : result error jsstring :=
  let* base64 := encodeToBase64 data in
  Ok (remove_all 61 (replace_all 47 95 (replace_all 43 45 base64))).

Definition decodeFromUrlSafeBase64 (urlSafeBase64 : jsstring) : result error T :=
  let base64 := replace_all 95 47 (replace_all 45 43 urlSafeBase64) in
  let base64 := addPadding base64 in
  decodeFromBase64 base64.

End Codec.

End Base64.

(** ** JSON values: a concrete JSON.stringify and JSON.parse *)

Module Json.
Import JS.

Set Warnings "-register-all".

Inductive json : Type :=
| JNull
| JBool (b : bool)
| JNumber (q : Q)
| JString (s : jsstring)
| JArray (items : list json)
| JObject (members : list (jsstring * json)).

(** *** JSON.stringify *)

Definition hex_digit (n : N) : N :=
  if (n <? 10)%N then (48 + n)%N else (87 + n)%N.

(** [\uXXXX] with lower-case hexadecimal digits. *)
Definition unicode_escape (c : N) : jsstring :=
  [92; 117; hex_digit (c / 4096); hex_digit ((c / 256) mod 16);
   hex_digit ((c / 16) mod 16); hex_digit (c mod 16)]%N.

Definition is_high_surrogate (c : N) : bool :=
  (55296 <=? c)%N && (c <=? 56319)%N.

Definition is_low_surrogate (c : N) : bool :=
  (56320 <=? c)%N && (c <=? 57343)%N.

Definition escape_char (c : N) : jsstring :=
  if N.eqb c 8 then lit "\b"
  else if N.eqb c 9 then lit "\t"
  else if N.eqb c 10 then lit "\n"
  else if N.eqb c 12 then lit "\f"
  else if N.eqb c 13 then lit "\r"
  else if N.eqb c 34 then [92; 34]%N
  else if N.eqb c 92 then [92; 92]%N
  else if (c <? 32)%N then unicode_escape c
  else [c].

Fixpoint quote_chars (s : jsstring) : jsstring :=
  match s with
  | [] => []
  | c :: r =>
      if is_high_surrogate c then
        match r with
        | d :: r' =>
            if is_low_surrogate d then c :: d :: quote_chars r'
            else unicode_escape c ++ quote_chars r
        | [] => unicode_escape c
        end
      else if is_low_surrogate c then unicode_escape c ++ quote_chars r
      else escape_char c ++ quote_chars r
  end.

(** QuoteJSONString *)
Definition quote (s : jsstring) : jsstring :=
  [34%N] ++ quote_chars s ++ [34%N].

Definition N_digits (n : N) : jsstring :=
  lit (NilZero.string_of_uint (N.to_uint n)).

Fixpoint fraction_digits (fuel : nat) (r d : Z) : jsstring :=
  match fuel with
  | O => []
  | S fuel' =>
      if (r =? 0)%Z then []
      else (48 + Z.to_N (r * 10 / d))%N
           :: fraction_digits fuel' ((r * 10) mod d)%Z d
  end.

(** Number::toString in positional notation: exact for a finite decimal of
    at most 25 fractional digits (longer expansions are cut there). *)
Definition Number_toString (q : Q) : jsstring :=
  let q := Qred q in
  let d := Zpos (Qden q) in
  let a := Z.abs (Qnum q) in
  (if (Qnum q <? 0)%Z then [45%N] else [])
  ++ N_digits (Z.to_N (a / d))
  ++ (if (a mod d =? 0)%Z then []
      else 46%N :: fraction_digits 25 (a mod d)%Z d).

Fixpoint join (sep : jsstring) (parts : list jsstring) : jsstring :=
  match parts with
  | [] => []
  | [x] => x
  | x :: rest => x ++ sep ++ join sep rest
  end.

Fixpoint stringify (v : json) : jsstring :=
  match v with
  | JNull => lit "null"
  | JBool true => lit "true"
  | JBool false => lit "false"
  | JNumber q => Number_toString q
  | JString s => quote s
  | JArray items => [91%N] ++ join [44%N] (map stringify items) ++ [93%N]
  | JObject members =>
      [123%N]
      ++ join [44%N]
           (map (fun kv => match kv with
                           | (k, x) => quote k ++ [58%N] ++ stringify x
                           end) members)
      ++ [125%N]
  end.

(** [JSON.stringify] on JSON values: always a string. *)
Definition JSON_stringify (v : json) : stringified := Text (stringify v).

(** *** JSON.parse *)

Definition is_json_whitespace (c : N) : bool :=
  existsb (N.eqb c) [32; 9; 10; 13]%N.

Fixpoint skip_ws (s : jsstring) : jsstring :=
  match s with
  | [] => []
  | c :: r => if is_json_whitespace c then skip_ws r else s
  end.

Definition hex_value (c : N) : option N :=
  if (48 <=? c)%N && (c <=? 57)%N then Some (c - 48)%N
  else if (97 <=? c)%N && (c <=? 102)%N then Some (c - 87)%N
  else if (65 <=? c)%N && (c <=? 70)%N then Some (c - 55)%N
  else None.

Definition hex4 (a b c d : N) : option N :=
  match hex_value a, hex_value b, hex_value c, hex_value d with
  | Some x, Some y, Some z, Some w => Some (x * 4096 + y * 256 + z * 16 + w)%N
  | _, _, _, _ => None
  end.

(** The character a one-letter escape stands for. *)
Definition simple_escape (e : N) : option N :=
  if N.eqb e 34 then Some 34%N
  else if N.eqb e 92 then Some 92%N
  else if N.eqb e 47 then Some 47%N
  else if N.eqb e 98 then Some 8%N
  else if N.eqb e 102 then Some 12%N
  else if N.eqb e 110 then Some 10%N
  else if N.eqb e 114 then Some 13%N
  else if N.eqb e 116 then Some 9%N
  else None.

Definition cons_to (c : N) (r : option (jsstring * jsstring))
  : option (jsstring * jsstring) :=
  match r with
  | Some (s, rest) => Some (c :: s, rest)
  | None => None
  end.

(** The characters of a string literal after its opening quote, up to and
    including the closing quote. *)
Fixpoint parse_chars (s : jsstring) : option (jsstring * jsstring) :=
  match s with
  | [] => None
  | c :: r =>
      if N.eqb c 34 then Some ([], r)
      else if N.eqb c 92 then
        match r with
        | e :: r1 =>
            if N.eqb e 117 then
              match r1 with
              | h1 :: h2 :: h3 :: h4 :: r2 =>
                  match hex4 h1 h2 h3 h4 with
                  | Some u => cons_to u (parse_chars r2)
                  | None => None
                  end
              | _ => None
              end
            else
              match simple_escape e with
              | Some x => cons_to x (parse_chars r1)
              | None => None
              end
        | [] => None
        end
      else if (c <? 32)%N then None
      else cons_to c (parse_chars r)
  end.

Definition starts_exponent (s : jsstring) : bool :=
  match s with
  | c :: _ => N.eqb c 101 || N.eqb c 69
  | [] => false
  end.

(** A JSON number: [-]? int frac? exp?, no leading zero, digits required
    after the point and in the exponent. *)
Definition parse_number (s : jsstring) : option (Q * jsstring) :=
  let (neg, s0) :=
    match s with
    | c :: r => if N.eqb c 45 then (true, r) else (false, s)
    | [] => (false, s)
    end in
  let (ip, s1) := span_digits s0 in
  match ip with
  | [] => None
  | d :: ds =>
      if N.eqb d 48 && truthy ds then None
      else
        let frac :=
          match s1 with
          | c :: r =>
              if N.eqb c 46 then
                let (fp, s2) := span_digits r in
                if truthy fp then Some (fp, s2) else None
              else Some ([], s1)
          | [] => Some ([], s1)
          end in
        match frac with
        | None => None
        | Some (fp, s2) =>
            let expo :=
              if starts_exponent s2 then exponent_part s2
              else Some (0%Z, s2) in
            match expo with
            | None => None
            | Some (e, s3) =>
                let q := decimal_value ip fp e in
                Some (if neg then (- q)%Q else q, s3)
            end
        end
  end.

Definition expect (word : jsstring) (v : json) (s : jsstring)
  : option (json * jsstring) :=
  if starts_with word s then Some (v, skipn (length word) s) else None.

Fixpoint parse_value (fuel : nat) (s : jsstring) : option (json * jsstring) :=
  match fuel with
  | O => None
  | S fuel' =>
      match skip_ws s with
      | [] => None
      | c :: r =>
          if N.eqb c 110 then expect (lit "null") JNull (c :: r)
          else if N.eqb c 116 then expect (lit "true") (JBool true) (c :: r)
          else if N.eqb c 102 then expect (lit "false") (JBool false) (c :: r)
          else if N.eqb c 34 then
            match parse_chars r with
            | Some (str, rest) => Some (JString str, rest)
            | None => None
            end
          else if N.eqb c 91 then
            match skip_ws r with
            | d :: r' =>
                if N.eqb d 93 then Some (JArray [], r')
                else
                  match parse_elements fuel' r with
                  | Some (items, rest) => Some (JArray items, rest)
                  | None => None
                  end
            | [] => None
            end
          else if N.eqb c 123 then
            match skip_ws r with
            | d :: r' =>
                if N.eqb d 125 then Some (JObject [], r')
                else
                  match parse_members fuel' r with
                  | Some (members, rest) => Some (JObject members, rest)
                  | None => None
                  end
            | [] => None
            end
          else
            match parse_number (c :: r) with
            | Some (q, rest) => Some (JNumber q, rest)
            | None => None
            end
      end
  end

with parse_elements (fuel : nat) (s : jsstring)
  : option (list json * jsstring) :=
  match fuel with
  | O => None
  | S fuel' =>
      match parse_value fuel' s with
      | Some (v, r) =>
          match skip_ws r with
          | d :: r' =>
              if N.eqb d 44 then
                match parse_elements fuel' r' with
                | Some (vs, rest) => Some (v :: vs, rest)
                | None => None
                end
              else if N.eqb d 93 then Some ([v], r')
              else None
          | [] => None
          end
      | None => None
      end
  end

with parse_members (fuel : nat) (s : jsstring)
  : option (list (jsstring * json) * jsstring) :=
  match fuel with
  | O => None
  | S fuel' =>
      match skip_ws s with
      | q :: r0 =>
          if N.eqb q 34 then
            match parse_chars r0 with
            | Some (key, r1) =>
                match skip_ws r1 with
                | colon :: r2 =>
                    if N.eqb colon 58 then
                      match parse_value fuel' r2 with
                      | Some (v, r3) =>
                          match skip_ws r3 with
                          | d :: r4 =>
                              if N.eqb d 44 then
                                match parse_members fuel' r4 with
                                | Some (ms, rest) => Some ((key, v) :: ms, rest)
                                | None => None
                                end
                              else if N.eqb d 125 then Some ([(key, v)], r4)
                              else None
                          | [] => None
                          end
                      | None => None
                      end
                    else None
                | [] => None
                end
            | None => None
            end
          else None
      | [] => None
      end
  end.

(** [JSON.parse]: one value, surrounded by optional whitespace; [None] is a
    [SyntaxError]. *)
Definition JSON_parse (s : jsstring) : option json :=
  match parse_value (2 * length s + 2) s with
  | Some (v, rest) =>
      match skip_ws rest with
      | [] => Some v
      | _ :: _ => None
      end
  | None => None
  end.

End Json.

(** ** src/App.tsx *)

Module App.
Import JS.

Record MapLocation : Type := {
  lat : number;
  lng : number;
  name : jsstring;
  description : option jsstring  (* [None] is [undefined] *)
}.

(** The initial value of the [mapLocations] state. *)
Definition defaultLocations : list MapLocation :=
  [ {| lat := Num 36.3932; lng := Num 25.4615;
       name := lit "Santorini, Greece";
       description := Some (lit "Beautiful Greek island with stunning sunsets") |};
    {| lat := Num 46.5197; lng := Num 6.6323;
       name := lit "Swiss Alps, Switzerland";
       description := Some (lit "Breathtaking alpine landscapes and hiking trails") |};
    {| lat := Num 48.8566; lng := Num 2.3522;
       name := lit "Paris, France";
       description := Some (lit "The City of Light with iconic landmarks") |};
    {| lat := Num 35.6762; lng := Num 139.6503;
       name := lit "Tokyo, Japan";
       description := Some (lit "Modern metropolis with rich culture") |};
    {| lat := Num (-33.8688); lng := Num 151.2093;
       name := lit "Sydney, Australia";
       description := Some (lit "Harbor city with beautiful beaches") |} ].

(** The [newLocation] form state: four text fields. *)
Record NewLocation : Type := {
  form_lat : jsstring;
  form_lng : jsstring;
  form_name : jsstring;
  form_description : jsstring
}.

Definition emptyForm : NewLocation :=
  {| form_lat := []; form_lng := []; form_name := []; form_description := [] |}.

(** The component's state variables. *)
Record State : Type := {
  mapLocations : list MapLocation;
  newLocation : NewLocation;
  showAddLocationForm : bool;
  locationsShareUrl : jsstring;
  isMapAddingMode : bool;
  targetLocation : option (number * number);
  openPopupLocationIndex : option nat;
  isMobile : bool
}.

Definition initialState (mobile : bool) : State :=
  {| mapLocations := defaultLocations;
     newLocation := emptyForm;
     showAddLocationForm := false;
     locationsShareUrl := [];
     isMapAddingMode := false;
     targetLocation := None;
     openPopupLocationIndex := None;
     isMobile := mobile |}.

Definition setMapLocations (l : list MapLocation) (s : State) : State :=
  {| mapLocations := l;
     newLocation := newLocation s;
     showAddLocationForm := showAddLocationForm s;
     locationsShareUrl := locationsShareUrl s;
     isMapAddingMode := isMapAddingMode s;
     targetLocation := targetLocation s;
     openPopupLocationIndex := openPopupLocationIndex s;
     isMobile := isMobile s |}.

Definition setLocationsShareUrl (u : jsstring) (s : State) : State :=
  {| mapLocations := mapLocations s;
     newLocation := newLocation s;
     showAddLocationForm := showAddLocationForm s;
     locationsShareUrl := u;
     isMapAddingMode := isMapAddingMode s;
     targetLocation := targetLocation s;
     openPopupLocationIndex := openPopupLocationIndex s;
     isMobile := isMobile s |}.

(** [setTargetLocation] and [setOpenPopupLocationIndex] together. *)
Definition setFocus (t : option (number * number)) (i : option nat) (s : State)
  : State :=
  {| mapLocations := mapLocations s;
     newLocation := newLocation s;
     showAddLocationForm := showAddLocationForm s;
     locationsShareUrl := locationsShareUrl s;
     isMapAddingMode := isMapAddingMode s;
     targetLocation := t;
     openPopupLocationIndex := i;
     isMobile := isMobile s |}.

(** The messages shown with [alert]. *)
Inductive message : Type :=
| InvalidLocationsData      (* 'Invalid locations data in URL' *)
| EnterCoordinatesAndName   (* 'Please enter valid coordinates and location name' *)
| CoordinatesOutOfRange     (* 'Please enter valid coordinates (lat: -90 to 90, lng: -180 to 180)' *)
| ShareUrlCopied            (* 'Locations share URL copied to clipboard! ...' *)
| CopyFailed.               (* 'Failed to copy URL to clipboard' *)

(** What a handler does besides updating the state. *)
Inductive effect : Type :=
| Alert (m : message)
| ClipboardWrite (text : jsstring)
| SetTimeoutClearFocus (delay : Z).

Section Handlers.

(** [JSON.stringify] and [JSON.parse] at the type [MapLocation[]] (the type
    assertion of the decoder checks nothing at run time), and the URL API:
    [url_with_locations token] is the string of [new URL(window.location.href)]
    after [searchParams.delete('locations')] and
    [searchParams.set('locations', token)]. *)
Variable JSON_stringify : list MapLocation -> stringified.
Variable JSON_parse : jsstring -> option (list MapLocation).
Variable url_with_locations : jsstring -> jsstring.

(** The mount effect that reads [?locations=...]; [locationsParam] is
    [urlParams.get('locations')]. *)
Definition loadLocationsFromUrl (locationsParam : option jsstring) (s : State)
  : State * list effect :=
  match locationsParam with
  | Some param =>
      if truthy param then
        match Base64.decodeFromUrlSafeBase64 JSON_parse param with
        | Ok decoded => (setMapLocations decoded s, [])
        | Err _ => (s, [Alert InvalidLocationsData])
        end
      else (s, [])
  | None => (s, [])
  end.

Definition addLocation (s : State) : State * list effect :=
  let lat := parseFloat (form_lat (newLocation s)) in
  let lng := parseFloat (form_lng (newLocation s)) in
  if isNaN lat || isNaN lng || negb (truthy (trim (form_name (newLocation s))))
  then (s, [Alert EnterCoordinatesAndName])
  else if num_ltb lat (Num (-90)) || num_gtb lat (Num 90)
          || num_ltb lng (Num (-180)) || num_gtb lng (Num 180)
  then (s, [Alert CoordinatesOutOfRange])
  else
    let location :=
      {| lat := lat;
         lng := lng;
         name := trim (form_name (newLocation s));
         description :=
           if truthy (trim (form_description (newLocation s)))
           then Some (trim (form_description (newLocation s)))
           else None |} in
    ({| mapLocations := mapLocations s ++ [location];
        newLocation := emptyForm;
        showAddLocationForm := false;
        locationsShareUrl := locationsShareUrl s;
        isMapAddingMode := isMapAddingMode s;
        targetLocation := targetLocation s;
        openPopupLocationIndex := openPopupLocationIndex s;
        isMobile := isMobile s |}, []).

(** [array.filter((_, i) => i !== index)] *)
Fixpoint filter_index {A} (from index : nat) (l : list A) : list A :=
  match l with
  | [] => []
  | x :: r =>
      if negb (Nat.eqb from index) then x :: filter_index (S from) index r
      else filter_index (S from) index r
  end.

Definition deleteLocation (index : nat) (s : State) : State :=
  let updatedLocations := filter_index 0 index (mapLocations s) in
  setMapLocations updatedLocations s.

(** Returns the new state and the URL; throws when the encoder does. *)
Definition generateLocationsShareUrl (s : State)
  : result Base64.error (State * jsstring) :=
  if Nat.ltb 0 (length (mapLocations s)) then
    let* urlSafeEncoded :=
      Base64.encodeToUrlSafeBase64 JSON_stringify (mapLocations s) in
    let shareableUrl := url_with_locations urlSafeEncoded in
    Ok (setLocationsShareUrl shareableUrl s, shareableUrl)
  else Ok (s, []).

(** [clipboard_ok] tells whether [navigator.clipboard.writeText] resolves. *)
Definition copyLocationsShareUrl (clipboard_ok : bool) (s : State)
  : result Base64.error (State * list effect) :=
  let* su :=
    (if truthy (locationsShareUrl s) then Ok (s, locationsShareUrl s)
     else generateLocationsShareUrl s) in
  let (s', url) := su in
  if truthy url then
    Ok (s', [ClipboardWrite url;
             Alert (if clipboard_ok then ShareUrlCopied else CopyFailed)])
  else Ok (s', []).

(** The four inputs of the form, by their [name] attribute. *)
Inductive field : Type :=
| FieldLat
| FieldLng
| FieldName
| FieldDescription.

(** [setNewLocation(prev => ({ ...prev, [name]: value }))] *)
Definition handleLocationChange (name : field) (value : jsstring) (s : State)
  : State :=
  let prev := newLocation s in
  {| mapLocations := mapLocations s;
     newLocation :=
       match name with
       | FieldLat =>
           {| form_lat := value; form_lng := form_lng prev;
              form_name := form_name prev;
              form_description := form_description prev |}
       | FieldLng =>
           {| form_lat := form_lat prev; form_lng := value;
              form_name := form_name prev;
              form_description := form_description prev |}
       | FieldName =>
           {| form_lat := form_lat prev; form_lng := form_lng prev;
              form_name := value;
              form_description := form_description prev |}
       | FieldDescription =>
           {| form_lat := form_lat prev; form_lng := form_lng prev;
              form_name := form_name prev;
              form_description := value |}
       end;
     showAddLocationForm := showAddLocationForm s;
     locationsShareUrl := locationsShareUrl s;
     isMapAddingMode := isMapAddingMode s;
     targetLocation := targetLocation s;
     openPopupLocationIndex := openPopupLocationIndex s;
     isMobile := isMobile s |}.

(** [locationData] is the [{name, description}] object of the map's form. *)
Definition handleMapAddLocation (lat lng : number)
  (locationData : jsstring * jsstring) (s : State) : State :=
  let location :=
    {| lat := lat;
       lng := lng;
       name := fst locationData;
       description :=
         if truthy (snd locationData) then Some (snd locationData) else None |} in
  {| mapLocations := mapLocations s ++ [location];
     newLocation := newLocation s;
     showAddLocationForm := showAddLocationForm s;
     locationsShareUrl := locationsShareUrl s;
     isMapAddingMode := false;
     targetLocation := targetLocation s;
     openPopupLocationIndex := openPopupLocationIndex s;
     isMobile := isMobile s |}.

(** The callback passed to [setTimeout]. *)
Definition clearFocus (s : State) : State := setFocus None None s.

Definition handleLocationClick (location : MapLocation) (index : nat) (s : State)
  : State * list effect :=
  (setFocus (Some (lat location, lng location)) (Some index) s,
   [SetTimeoutClearFocus 5000]).

End Handlers.

(** *** The viewport fitter *)

Record Viewport : Type := {
  center : number * number;
  zoom : Z
}.

Definition mapBounds (mapLocations : list MapLocation) (isMobile : bool)
  : Viewport :=
  match mapLocations with
  | [] =>
      {| center := (Num 46.5197, Num 6.6323);
         zoom := if isMobile then 3 else 4 |}
  | [only] =>
      {| center := (lat only, lng only);
         zoom := if isMobile then 8 else 10 |}
  | _ =>
      let lats := map lat mapLocations in
      let lngs := map lng mapLocations in
      let minLat := Math_min lats in
      let maxLat := Math_max lats in
      let minLng := Math_min lngs in
      let maxLng := Math_max lngs in
      let centerLat := num_half (num_add minLat maxLat) in
      let centerLng := num_half (num_add minLng maxLng) in
      let latSpan := num_sub maxLat minLat in
      let lngSpan := num_sub maxLng minLng in
      let maxSpan := Math_max [latSpan; lngSpan] in
      let zoom :=
        if num_ltb maxSpan (Num 0.01) then (if isMobile then 11 else 13)
        else if num_ltb maxSpan (Num 0.1) then (if isMobile then 8 else 10)
        else if num_ltb maxSpan (Num 1) then (if isMobile then 5 else 7)
        else if num_ltb maxSpan (Num 10) then (if isMobile then 3 else 5)
        else (if isMobile then 2 else 3) in
      {| center := (centerLat, centerLng); zoom := zoom |}
  end%Z.

(** *** The event loop around [handleLocationClick]

    A pending timer is the time at which its callback is due; every timer the
    component sets has the callback [clearFocus]. *)

Record World : Type := {
  state : State;
  now : Z;
  timers : list Z
}.

(** Runs the callbacks due up to time [t]. *)
Definition advance (t : Z) (w : World) : World :=
  {| state :=
       if existsb (fun due => (due <=? t)%Z) (timers w)
       then clearFocus (state w) else state w;
     now := t;
     timers := filter (fun due => negb (due <=? t)%Z) (timers w) |}.

Definition schedule (now : Z) (effects : list effect) : list Z :=
  flat_map (fun e => match e with
                     | SetTimeoutClearFocus delay => [(now + delay)%Z]
                     | _ => []
                     end) effects.

(** A click on the location at [index] of the list, at time [t]. *)
Definition click (t : Z) (index : nat) (w : World) : World :=
  let w := advance t w in
  match nth_error (mapLocations (state w)) index with
  | Some location =>
      let (s, effects) := handleLocationClick location index (state w) in
      {| state := s; now := t; timers := timers w ++ schedule t effects |}
  | None => w
  end.

(** The clicks of a trace, in order; each is a time and an index. *)
Definition run (clicks : list (Z * nat)) (w : World) : World :=
  fold_left (fun w c => click (fst c) (snd c) w) clicks w.

End App.

(** ** The location list as JSON *)

Module Locations.
Import JS Json App.

(** [JSON.stringify] writes [NaN] and the infinities as [null]. *)
Definition number_to_json (x : number) : json :=
  match x with
  | Num q => JNumber q
  | _ => JNull
  end.

(** A property whose value is [undefined] is left out. *)
Definition location_to_json (r : MapLocation) : json :=
  JObject
    ([(lit "lat", number_to_json (lat r));
      (lit "lng", number_to_json (lng r));
      (lit "name", JString (name r))]
     ++ match description r with
        | Some d => [(lit "description", JString d)]
        | None => []
        end).

Definition locations_to_json (l : list MapLocation) : json :=
  JArray (map location_to_json l).

Definition JSON_stringify (l : list MapLocation) : stringified :=
  Json.JSON_stringify (locations_to_json l).

(** The value of a key of an object; of a repeated key the last one counts. *)
Fixpoint member (key : jsstring) (members : list (jsstring * json))
  : option json :=
  match members with
  | [] => None
  | (k, v) :: rest =>
      match member key rest with
      | Some later => Some later
      | None => if str_eqb k key then Some v else None
      end
  end.

(** A JSON value read at the type [MapLocation]; [None] for a value that the
    type does not describe. *)
Definition json_to_location (v : json) : option MapLocation :=
  match v with
  | JObject members =>
      match member (lit "lat") members, member (lit "lng") members,
            member (lit "name") members with
      | Some (JNumber la), Some (JNumber lo), Some (JString n) =>
          match member (lit "description") members with
          | None => Some {| lat := Num la; lng := Num lo; name := n;
                            description := None |}
          | Some (JString d) =>
              Some {| lat := Num la; lng := Num lo; name := n;
                      description := Some d |}
          | Some _ => None
          end
      | _, _, _ => None
      end
  | _ => None
  end.

Fixpoint json_to_locations (items : list json) : option (list MapLocation) :=
  match items with
  | [] => Some []
  | v :: rest =>
      match json_to_location v, json_to_locations rest with
      | Some r, Some rs => Some (r :: rs)
      | _, _ => None
      end
  end.

(** [JSON.parse] at the type [MapLocation[]]: an array of objects with
    numbers [lat] and [lng], a string [name] and an optional string
    [description].  A text that parses to a value of another shape is outside
    this model of the location list; it is mapped to [None]. *)
Definition JSON_parse (s : jsstring) : option (list MapLocation) :=
  match Json.JSON_parse s with
  | Some (JArray items) => json_to_locations items
  | _ => None
  end.

(** A page URL with its [locations] parameter. *)
Definition url_with_locations (token : jsstring) : jsstring :=
  lit "https://spot-mapper.example/?locations=" ++ token.

End Locations.

(** ** Vocabulary of the specification *)

Module Spec.
Import JS App.

(** A value is JSON-serializable when [JSON.stringify] returns a text for
    it and [JSON.parse] reads that text back as the value. *)
Definition serializable {T : Type} (JSON_stringify : T -> stringified)
  (JSON_parse : jsstring -> option T) (v : T) : Prop :=
  exists s, JSON_stringify v = Text s /\ JSON_parse s = Some v.

(** The alphabet [[A-Za-z0-9_-]] of a token. *)
Definition is_token_char (c : N) : bool :=
  Base64.is_alnum c || N.eqb c 45 || N.eqb c 95.

(** The number of [=] a decoder has to restore for a token of length [len]. *)
Definition pad_length (len : nat) : nat := (4 - len mod 4) mod 4.

(** The data model's constraints on a record. *)
Definition valid_location (r : MapLocation) : bool :=
  num_leb (Num (-90)) (lat r) && num_leb (lat r) (Num 90)
  && num_leb (Num (-180)) (lng r) && num_leb (lng r) (Num 180)
  && truthy (name r).

Definition valid_store (l : list MapLocation) : bool :=
  forallb valid_location l.

Definition option_eqb {A} (eqb : A -> A -> bool) (x y : option A) : bool :=
  match x, y with
  | Some a, Some b => eqb a b
  | None, None => true
  | _, _ => false
  end.

(** Equality of records by value. *)
Definition location_eqb (r r' : MapLocation) : bool :=
  num_eqb (lat r) (lat r') && num_eqb (lng r) (lng r')
  && str_eqb (name r) (name r')
  && option_eqb str_eqb (description r) (description r').

(** The index of the first occurrence of [r] in [l]. *)
Fixpoint indexOf (r : MapLocation) (l : list MapLocation) : option nat :=
  match l with
  | [] => None
  | x :: rest =>
      if location_eqb x r then Some 0
      else match indexOf r rest with
           | Some i => Some (S i)
           | None => None
           end
  end.

(** The extent of the bounding box of a location list. *)
Definition latSpan (l : list MapLocation) : number :=
  num_sub (Math_max (map lat l)) (Math_min (map lat l)).

Definition lngSpan (l : list MapLocation) : number :=
  num_sub (Math_max (map lng l)) (Math_min (map lng l)).

Definition span (l : list MapLocation) : number :=
  num_max (latSpan l) (lngSpan l).

(** One user action that does not go through the map or the URL: typing
    into the form, submitting it, deleting a record, clicking a record, and
    the timer's callback. *)
Inductive form_step : State -> State -> Prop :=
| step_change name value s :
    form_step s (handleLocationChange name value s)
| step_add s :
    form_step s (fst (addLocation s))
| step_delete index s :
    form_step s (deleteLocation index s)
| step_click location index s :
    form_step s (fst (handleLocationClick location index s))
| step_clear s :
    form_step s (clearFocus s).

(** The states reached from the initial state by such actions. *)
Inductive form_reachable (mobile : bool) : State -> Prop :=
| reach_initial : form_reachable mobile (initialState mobile)
| reach_step s s' :
    form_reachable mobile s -> form_step s s' -> form_reachable mobile s'.

End Spec.

(** ** States and records used in examples *)

Module Example.
Import JS App.

(** The state with the store [l] and the add-location form open and filled
    in with [la], [lo], [n] and [d]. *)
Definition form_state (l : list MapLocation) (la lo n d : string) : State :=
  {| mapLocations := l;
     newLocation := {| form_lat := lit la; form_lng := lit lo;
                       form_name := lit n; form_description := lit d |};
     showAddLocationForm := true;
     locationsShareUrl := [];
     isMapAddingMode := false;
     targetLocation := None;
     openPopupLocationIndex := None;
     isMobile := false |}.

(** A record without description. *)
Definition place (la lo : Q) (n : jsstring) : MapLocation :=
  {| lat := Num la; lng := Num lo; name := n; description := None |}.

End Example.

(** ** Abbreviations *)

(** The three replacements of [encodeToUrlSafeBase64] ... *)
Definition to_url_safe (base64 : JS.jsstring) : JS.jsstring :=
  JS.remove_all 61 (JS.replace_all 47 95 (JS.replace_all 43 45 base64)).

(** ... and the two of [decodeFromUrlSafeBase64]. *)
Definition from_url_safe (token : JS.jsstring) : JS.jsstring :=
  JS.replace_all 95 47 (JS.replace_all 45 43 token).

(** ** src/App.tsx: the buttons of the panel *)

Module Panel.
Import JS App.

(** [handleResize]: [setIsMobile(window.innerWidth <= 768)]. *)
Definition handleResize (innerWidth : Z) (s : State) : State :=
  {| mapLocations := mapLocations s;
     newLocation := newLocation s;
     showAddLocationForm := showAddLocationForm s;
     locationsShareUrl := locationsShareUrl s;
     isMapAddingMode := isMapAddingMode s;
     targetLocation := targetLocation s;
     openPopupLocationIndex := openPopupLocationIndex s;
     isMobile := (innerWidth <=? 768)%Z |}.

(** The [onClick] of the Click Add button:
    [setIsMapAddingMode(!isMapAddingMode); setShowAddLocationForm(false)]. *)
Definition clickAddButton (s : State) : State :=
  {| mapLocations := mapLocations s;
     newLocation := newLocation s;
     showAddLocationForm := false;
     locationsShareUrl := locationsShareUrl s;
     isMapAddingMode := negb (isMapAddingMode s);
     targetLocation := targetLocation s;
     openPopupLocationIndex := openPopupLocationIndex s;
     isMobile := isMobile s |}.

(** The [onClick] of the Add Form button:
    [setShowAddLocationForm(true); setIsMapAddingMode(false)]. *)
Definition addFormButton (s : State) : State :=
  {| mapLocations := mapLocations s;
     newLocation := newLocation s;
     showAddLocationForm := true;
     locationsShareUrl := locationsShareUrl s;
     isMapAddingMode := false;
     targetLocation := targetLocation s;
     openPopupLocationIndex := openPopupLocationIndex s;
     isMobile := isMobile s |}.

(** The [onClick] of the form's Cancel button:
    [setShowAddLocationForm(false)]. *)
Definition cancelButton (s : State) : State :=
  {| mapLocations := mapLocations s;
     newLocation := newLocation s;
     showAddLocationForm := false;
     locationsShareUrl := locationsShareUrl s;
     isMapAddingMode := isMapAddingMode s;
     targetLocation := targetLocation s;
     openPopupLocationIndex := openPopupLocationIndex s;
     isMobile := isMobile s |}.

(** What the JSX renders: the controls under [!isMobile], the form under
    [showAddLocationForm] inside the controls, the share URL and its copy
    button under [locationsShareUrl]. *)
Definition controls_rendered (s : State) : bool := negb (isMobile s).

Definition form_rendered (s : State) : bool :=
  negb (isMobile s) && showAddLocationForm s.

Definition share_url_rendered (s : State) : bool :=
  truthy (locationsShareUrl s).

End Panel.

(** ** src/components/MapComponent.tsx *)

Module MapComponent.
Import JS App.






(** The [click] handler of [ClickHandler], whose [onAddLocation] is
    [handleMapClick]: in adding mode the click position becomes the
    [pendingLocation] state. *)
Definition ClickHandler_click (isAddingMode : bool) (lat lng : number)
  (pendingLocation : option (number * number)) : option (number * number) :=
  if isAddingMode then Some (lat, lng) else pendingLocation.

(** [LocationForm]'s [handleSubmit]: the argument [onSave] is called with,
    or [None] when it is not called. *)
Definition LocationForm_handleSubmit (name description : jsstring)
  : option (jsstring * jsstring) :=
  if truthy (trim name) then Some (trim name, trim description) else None.

End MapComponent.

(** ** The page: [App] with the [MapComponent] it renders *)

Module UI.
Import JS App MapComponent.

Record UI : Type := {
  app : State;
  pendingLocation : option (number * number)
}.

Definition initial (mobile : bool) : UI :=
  {| app := initialState mobile; pendingLocation := None |}.

Definition with_app (s : State) (u : UI) : UI :=
  {| app := s; pendingLocation := pendingLocation u |}.

(** The pending marker and its form are rendered under
    [pendingLocation && isAddingMode]. *)
Definition pending_form_rendered (u : UI) : bool :=
  match pendingLocation u with
  | Some _ => isMapAddingMode (app u)
  | None => false
  end.

(** A click on the map at [(lat, lng)]. *)
Definition mapClick (lat lng : number) (u : UI) : UI :=
  {| app := app u;
     pendingLocation :=
       ClickHandler_click (isMapAddingMode (app u)) lat lng (pendingLocation u) |}.

(** The [onSave] closure of the pending marker's form, run by the form's
    submit: [onAddLocation] is [App]'s [handleMapAddLocation]. *)
Definition submitPendingForm (name description : jsstring) (u : UI) : UI :=
  match pendingLocation u with
  | Some (lat, lng) =>
      match LocationForm_handleSubmit name description with
      | Some locationData =>
          {| app := handleMapAddLocation lat lng locationData (app u);
             pendingLocation := None |}
      | None => u
      end
  | None => u
  end.

(** [onCancel]: [setPendingLocation(null)]. *)
Definition cancelPendingForm (u : UI) : UI :=
  {| app := app u; pendingLocation := None |}.


(** The [location] object that [addLocation] builds from the form. *)
Definition form_record (s : State) : MapLocation :=
  {| lat := parseFloat (form_lat (newLocation s));
     lng := parseFloat (form_lng (newLocation s));
     name := trim (form_name (newLocation s));
     description :=
       if truthy (trim (form_description (newLocation s)))
       then Some (trim (form_description (newLocation s)))
       else None |}.

Section Steps.

Variable JSON_stringify : list MapLocation -> stringified.
Variable JSON_parse : jsstring -> option (list MapLocation).
Variable url_with_locations : jsstring -> jsstring.

(** One event of the page: each constructor is a handler of the source,
    under the condition that renders the element it is attached to. *)
Inductive step : UI -> UI -> Prop :=
| step_resize innerWidth u :
    step u (with_app (Panel.handleResize innerWidth (app u)) u)
| step_clickAdd u :
    Panel.controls_rendered (app u) = true ->
    step u (with_app (Panel.clickAddButton (app u)) u)
| step_addForm u :
    Panel.controls_rendered (app u) = true ->
    step u (with_app (Panel.addFormButton (app u)) u)
| step_cancel u :
    Panel.form_rendered (app u) = true ->
    step u (with_app (Panel.cancelButton (app u)) u)
| step_change name value u :
    Panel.form_rendered (app u) = true ->
    step u (with_app (handleLocationChange name value (app u)) u)
| step_submit u :
    Panel.form_rendered (app u) = true ->
    step u (with_app (fst (addLocation (app u))) u)
| step_delete index u :
    index < length (mapLocations (app u)) ->
    step u (with_app (deleteLocation index (app u)) u)
| step_click location index u :
    nth_error (mapLocations (app u)) index = Some location ->
    step u (with_app (fst (handleLocationClick location index (app u))) u)
| step_timer u :
    step u (with_app (clearFocus (app u)) u)
| step_share s' url u :
    generateLocationsShareUrl JSON_stringify url_with_locations (app u)
    = Ok (s', url) ->
    step u (with_app s' u)
| step_copy clipboard_ok s' effects u :
    Panel.share_url_rendered (app u) = true ->
    copyLocationsShareUrl JSON_stringify url_with_locations clipboard_ok (app u)
    = Ok (s', effects) ->
    step u (with_app s' u)
| step_mapClick lat lng u :
    step u (mapClick lat lng u)
| step_pendingSubmit name description u :
    pending_form_rendered u = true ->
    step u (submitPendingForm name description u)
| step_pendingCancel u :
    pending_form_rendered u = true ->
    step u (cancelPendingForm u).

(** The states of the page after the mount effect has read
    [locationsParam] from the URL. *)
Inductive reachable (mobile : bool) (locationsParam : option jsstring)
  : UI -> Prop :=
| reach_mount :
    reachable mobile locationsParam
      (with_app (fst (loadLocationsFromUrl JSON_parse locationsParam
                        (initialState mobile)))
                (initial mobile))
| reach_step u u' :
    reachable mobile locationsParam u -> step u u' ->
    reachable mobile locationsParam u'.

End Steps.

(** A record as the handlers store it: the name is not empty and has no
    white space at either end, and so has the description when there is
    one. *)
Definition tidy (r : MapLocation) : Prop :=
  name r <> [] /\ trim (name r) = name r
  /\ match description r with
     | Some d => d <> [] /\ trim d = d
     | None => True
     end.

(** What every state of the page satisfies. *)
Definition consistent (u : UI) : Prop :=
  showAddLocationForm (app u) && isMapAddingMode (app u) = false
  /\ (targetLocation (app u) = None <-> openPopupLocationIndex (app u) = None).

End UI.

(** ** Traces of clicks on the list *)

Module Timeline.
Import App.

(** The clicks of a trace come in the order of their times, none before
    [t]. *)
Fixpoint chronological (t : Z) (clicks : list (Z * nat)) : bool :=
  match clicks with
  | [] => true
  | c :: rest => (t <=? fst c)%Z && chronological (fst c) rest
  end.

(** The time of the last click of a trace that starts at time [t]. *)
Fixpoint last_click (t : Z) (clicks : list (Z * nat)) : Z :=
  match clicks with
  | [] => t
  | c :: rest => last_click (fst c) rest
  end.

(** No record has the focus. *)
Definition unfocused (s : State) : Prop :=
  targetLocation s = None /\ openPopupLocationIndex s = None.

(** What the event loop keeps: every pending timer is due within five
    seconds of the latest event [tl], and a focus is held only while a timer
    is pending. *)
Definition timers_cover (tl : Z) (w : World) : Prop :=
  Forall (fun due => (due <= tl + 5000)%Z) (timers w)
  /\ (timers w = [] -> unfocused (state w)).

End Timeline.

(** ** More of the JavaScript platform *)

Module Platform.
Import JS.




(** [x || 0] on numbers: [NaN] and zero are falsy. *)
Definition num_or_zero (x : number) : number :=
  if isNaN x || num_eqb x (Num 0) then Num 0 else x.

(** The value of a digit in radix 10 or 16. *)
Definition radix_digit (radix : N) (c : N) : option N :=
  if (48 <=? c)%N && (c <=? 57)%N then Some (c - 48)%N
  else if (radix =? 16)%N && (97 <=? c)%N && (c <=? 102)%N then Some (c - 87)%N
  else if (radix =? 16)%N && (65 <=? c)%N && (c <=? 70)%N then Some (c - 55)%N
  else None.

(** The digits of the longest prefix that consists of digits. *)
Fixpoint radix_prefix (radix : N) (s : jsstring) : list N :=
  match s with
  | c :: r =>
      match radix_digit radix c with
      | Some v => v :: radix_prefix radix r
      | None => []
      end
  | [] => []
  end.

Definition radix_value (radix : N) (ds : list N) : N :=
  fold_left (fun acc v => (acc * radix + v)%N) ds 0%N.

(** [parseInt(s)] without a radix: leading white space is skipped, then a
    sign, then [0x] or [0X] selects radix 16; the longest prefix of digits is
    converted, and the result is [NaN] when there is none. *)
Definition parseInt (s : jsstring) : number :=
  let s := trimStart s in
  let (neg, s) :=
    match s with
    | c :: r =>
        if N.eqb c 45 then (true, r)
        else if N.eqb c 43 then (false, r)
        else (false, s)
    | [] => (false, s)
    end in
  let (radix, s) :=
    match s with
    | c1 :: c2 :: r =>
        if N.eqb c1 48 && (N.eqb c2 120 || N.eqb c2 88) then (16%N, r)
        else (10%N, s)
    | _ => (10%N, s)
    end in
  match radix_prefix radix s with
  | [] => NaN
  | ds =>
      let n := Z.of_N (radix_value radix ds) in
      Num (inject_Z (if neg then (- n)%Z else n))
  end.

End Platform.

(** ** src/components/TripCard.tsx *)

Module TripCard.
Import JS Platform.

Section Dates.

(** [new Date(dateString).getTime()]: the time value in milliseconds, [NaN]
    for a string that is no date. *)
Variable Date_getTime : jsstring -> number.


End Dates.

End TripCard.

(** ** src/components/UserProfileForm.tsx *)

Module UserProfileForm.
Import JS Platform.

Record UserProfile : Type := {
  name : jsstring;
  surname : jsstring;
  age : number
}.

(** The [errors] state, a [Record<string, string>] with the keys the
    component uses; [None] is a key that is absent. *)
Record Errors : Type := {
  error_name : option jsstring;
  error_surname : option jsstring;
  error_age : option jsstring
}.

Definition noErrors : Errors :=
  {| error_name := None; error_surname := None; error_age := None |}.

Record State : Type := {
  formData : UserProfile;
  errors : Errors
}.

(** The initial state; [initialData] may be [null] or [undefined]. *)
Definition initialState (initialData : option UserProfile) : State :=
  {| formData :=
       match initialData with
       | Some p => {| name := name p; surname := surname p;
                      age := num_or_zero (age p) |}
       | None => {| name := []; surname := []; age := Num 0 |}
       end;
     errors := noErrors |}.

(** The three inputs, by their [name] attribute. *)
Inductive field : Type :=
| FieldName
| FieldSurname
| FieldAge.

(** [errors[name]] is truthy. *)
Definition has_error (f : field) (e : Errors) : bool :=
  match (match f with
         | FieldName => error_name e
         | FieldSurname => error_surname e
         | FieldAge => error_age e
         end) with
  | Some m => truthy m
  | None => false
  end.

Definition handleChange (f : field) (value : jsstring) (st : State) : State :=
  let prev := formData st in
  {| formData :=
       match f with
       | FieldName =>
           {| name := value; surname := surname prev; age := age prev |}
       | FieldSurname =>
           {| name := name prev; surname := value; age := age prev |}
       | FieldAge =>
           {| name := name prev; surname := surname prev;
              age := num_or_zero (parseInt value) |}
       end;
     errors :=
       if has_error f (errors st) then
         match f with
         | FieldName =>
             {| error_name := Some []; error_surname := error_surname (errors st);
                error_age := error_age (errors st) |}
         | FieldSurname =>
             {| error_name := error_name (errors st); error_surname := Some [];
                error_age := error_age (errors st) |}
         | FieldAge =>
             {| error_name := error_name (errors st);
                error_surname := error_surname (errors st);
                error_age := Some [] |}
         end
       else errors st |}.

(** Returns the state after [setErrors(newErrors)] and whether
    [newErrors] has no key. *)
Definition validateForm (st : State) : State * bool :=
  let newErrors :=
    {| error_name :=
         if negb (truthy (trim (name (formData st))))
         then Some (lit "Name is required") else None;
       error_surname :=
         if negb (truthy (trim (surname (formData st))))
         then Some (lit "Surname is required") else None;
       error_age :=
         if num_leb (age (formData st)) (Num 0)
            || num_gtb (age (formData st)) (Num 150)
         then Some (lit "Please enter a valid age (1-150)") else None |} in
  ({| formData := formData st; errors := newErrors |},
   match error_name newErrors, error_surname newErrors, error_age newErrors with
   | None, None, None => true
   | _, _, _ => false
   end).

(** Returns the new state and the profile [onSubmit] is called with, if it
    is called. *)
Definition handleSubmit (st : State) : State * option UserProfile :=
  let (st', valid) := validateForm st in
  (st', if valid then Some (formData st) else None).

End UserProfileForm.

(** ** src/components/AddTripForm.tsx *)

Module AddTripForm.
Import JS.

(** The [formData] state: six text fields. *)
Record FormData : Type := {
  title : jsstring;
  destination : jsstring;
  startDate : jsstring;
  endDate : jsstring;
  description : jsstring;
  image : jsstring
}.

Definition emptyForm : FormData :=
  {| title := []; destination := []; startDate := []; endDate := [];
     description := []; image := [] |}.

(** The six inputs, by their [name] attribute. *)
Inductive field : Type :=
| FieldTitle
| FieldDestination
| FieldStartDate
| FieldEndDate
| FieldDescription
| FieldImage.

(** [setFormData(prev => ({ ...prev, [name]: value }))] *)
Definition handleChange (name : field) (value : jsstring) (prev : FormData)
  : FormData :=
  match name with
  | FieldTitle =>
      {| title := value; destination := destination prev;
         startDate := startDate prev; endDate := endDate prev;
         description := description prev; image := image prev |}
  | FieldDestination =>
      {| title := title prev; destination := value;
         startDate := startDate prev; endDate := endDate prev;
         description := description prev; image := image prev |}
  | FieldStartDate =>
      {| title := title prev; destination := destination prev;
         startDate := value; endDate := endDate prev;
         description := description prev; image := image prev |}
  | FieldEndDate =>
      {| title := title prev; destination := destination prev;
         startDate := startDate prev; endDate := value;
         description := description prev; image := image prev |}
  | FieldDescription =>
      {| title := title prev; destination := destination prev;
         startDate := startDate prev; endDate := endDate prev;
         description := value; image := image prev |}
  | FieldImage =>
      {| title := title prev; destination := destination prev;
         startDate := startDate prev; endDate := endDate prev;
         description := description prev; image := value |}
  end.

(** Returns the new form data and the trip [onSubmit] is called with, if it
    is called. *)
Definition handleSubmit (formData : FormData) : FormData * option FormData :=
  if truthy (title formData) && truthy (destination formData)
     && truthy (startDate formData) && truthy (endDate formData)
  then (emptyForm, Some formData)
  else (formData, None).

End AddTripForm.

(** ** Proof automation *)

(** Linear arithmetic with division and remainder by constants. *)
Ltac nlia := zify; Z.to_euclidean_division_equations; lia.

(* ================================================================= *)
(** * Part II: theorems *)
(* ================================================================= *)

Import JS.

(** ** The platform model on known values *)

Example btoa_null : btoa (lit "null") = Ok (lit "bnVsbA==").
Proof. reflexivity. Qed.

Example btoa_rejects_euro_sign : btoa [8364%N] = Err InvalidCharacterError.
Proof. reflexivity. Qed.

Example atob_ignores_whitespace :
  atob (lit " bnVs bA== ") = Ok (lit "null").
Proof. reflexivity. Qed.

Example atob_accepts_missing_padding : atob (lit "bnVsbA") = Ok (lit "null").
Proof. reflexivity. Qed.

Example atob_rejects_length_5 : atob (lit "bnVsb") = Err InvalidCharacterError.
Proof. reflexivity. Qed.

Example atob_rejects_url_safe_characters :
  atob (lit "Ij4-Pj4_") = Err InvalidCharacterError.
Proof. reflexivity. Qed.

Example parseFloat_prefix :
  num_eqb (parseFloat (lit " 36.3932abc")) (Num 36.3932) = true.
Proof. reflexivity. Qed.

Example parseFloat_exponent :
  num_eqb (parseFloat (lit "-1.5e2")) (Num (-150)) = true.
Proof. reflexivity. Qed.

Example parseFloat_no_number : parseFloat (lit "abc") = NaN.
Proof. reflexivity. Qed.

Example parseFloat_infinity : parseFloat (lit "-Infinity") = NegInfinity.
Proof. reflexivity. Qed.

Example trim_both_ends : trim (lit "  a b  ") = lit "a b".
Proof. reflexivity. Qed.

Example JSON_parse_rejects_leading_zero : Json.JSON_parse (lit "01") = None.
Proof. reflexivity. Qed.

Example JSON_parse_rejects_trailing_comma :
  Json.JSON_parse (lit "[1,]") = None.
Proof. reflexivity. Qed.

Example JSON_parse_rejects_undefined :
  Json.JSON_parse (lit "undefined") = None.
Proof. reflexivity. Qed.

Example JSON_parse_numbers :
  Json.JSON_parse (lit " [ 1e2, -0.5, true, null ] ")
  = Some (Json.JArray [Json.JNumber 100; Json.JNumber (-1 # 2);
                       Json.JBool true; Json.JNull]).
Proof. reflexivity. Qed.

(** The token of the default list, as a browser computes it. *)
Example token_of_defaultLocations :
  Base64.encodeToUrlSafeBase64 Locations.JSON_stringify App.defaultLocations
  = Ok (lit ("W3sibGF0IjozNi4zOTMyLCJsbmciOjI1LjQ2MTUsIm5hbWUiOiJTYW50b3Jpbmks"
          ++ "IEdyZWVjZSIsImRlc2NyaXB0aW9uIjoiQmVhdXRpZnVsIEdyZWVrIGlzbGFuZCB3"
          ++ "aXRoIHN0dW5uaW5nIHN1bnNldHMifSx7ImxhdCI6NDYuNTE5NywibG5nIjo2LjYz"
          ++ "MjMsIm5hbWUiOiJTd2lzcyBBbHBzLCBTd2l0emVybGFuZCIsImRlc2NyaXB0aW9u"
          ++ "IjoiQnJlYXRodGFraW5nIGFscGluZSBsYW5kc2NhcGVzIGFuZCBoaWtpbmcgdHJh"
          ++ "aWxzIn0seyJsYXQiOjQ4Ljg1NjYsImxuZyI6Mi4zNTIyLCJuYW1lIjoiUGFyaXMs"
          ++ "IEZyYW5jZSIsImRlc2NyaXB0aW9uIjoiVGhlIENpdHkgb2YgTGlnaHQgd2l0aCBp"
          ++ "Y29uaWMgbGFuZG1hcmtzIn0seyJsYXQiOjM1LjY3NjIsImxuZyI6MTM5LjY1MDMs"
          ++ "Im5hbWUiOiJUb2t5bywgSmFwYW4iLCJkZXNjcmlwdGlvbiI6Ik1vZGVybiBtZXRy"
          ++ "b3BvbGlzIHdpdGggcmljaCBjdWx0dXJlIn0seyJsYXQiOi0zMy44Njg4LCJsbmci"
          ++ "OjE1MS4yMDkzLCJuYW1lIjoiU3lkbmV5LCBBdXN0cmFsaWEiLCJkZXNjcmlwdGlv"
          ++ "biI6IkhhcmJvciBjaXR5IHdpdGggYmVhdXRpZnVsIGJlYWNoZXMifV0")%string).
Proof. vm_compute. reflexivity. Qed.

(** ** Induction on a list three elements at a time *)

Lemma list_ind3 {A} (P : list A -> Prop) :
  P [] ->
  (forall a, P [a]) ->
  (forall a b, P [a; b]) ->
  (forall a b c r, P r -> P (a :: b :: c :: r)) ->
  forall l, P l.
Proof.
  intros H0 H1 H2 H3 l.
  cut (P l /\ (forall a, P (a :: l)) /\ (forall a b, P (a :: b :: l))).
  { tauto. }
  induction l as [|x l [IH0 [IH1 IH2]]].
  - auto.
  - repeat split; auto.
Qed.

(** ** btoa and atob *)

Lemma latin1_cons c s : latin1 (c :: s) <-> (c <= 255)%N /\ latin1 s.
Proof.
  unfold latin1. simpl. rewrite andb_true_iff, N.leb_le. tauto.
Qed.

Lemma below_64 (P : N -> Prop) :
  (forall n : nat, (n < 64)%nat -> P (N.of_nat n)) ->
  forall i, (i < 64)%N -> P i.
Proof.
  intros H i Hi. rewrite <- (N2Nat.id i). apply H. lia.
Qed.

Lemma b64_value_char i : (i < 64)%N -> b64_value (b64_char i) = Some i.
Proof.
  revert i. apply below_64. intros n Hn.
  do 64 (destruct n as [|n]; [reflexivity|]). lia.
Qed.

Lemma b64_char_is_base64 i :
  (i < 64)%N -> Base64.is_base64_char (b64_char i) = true.
Proof.
  revert i. apply below_64. intros n Hn.
  do 64 (destruct n as [|n]; [reflexivity|]). lia.
Qed.

Lemma base64_char_not_pad c :
  Base64.is_base64_char c = true -> N.eqb c pad_char = false.
Proof.
  unfold Base64.is_base64_char, Base64.is_alnum, pad_char. intros H.
  apply N.eqb_neq. intros ->. discriminate H.
Qed.

Lemma base64_char_not_whitespace c :
  Base64.is_base64_char c = true -> is_ascii_whitespace c = false.
Proof.
  unfold Base64.is_base64_char, Base64.is_alnum, is_ascii_whitespace.
  intros H. simpl.
  destruct (N.eqb_spec c 9) as [->|]; [discriminate H|].
  destruct (N.eqb_spec c 10) as [->|]; [discriminate H|].
  destruct (N.eqb_spec c 12) as [->|]; [discriminate H|].
  destruct (N.eqb_spec c 13) as [->|]; [discriminate H|].
  destruct (N.eqb_spec c 32) as [->|]; [discriminate H|].
  reflexivity.
Qed.

(** The four six-bit values of three bytes, and the bytes back. *)
Lemma sextets_of_bytes a b c :
  (a <= 255)%N -> (b <= 255)%N -> (c <= 255)%N ->
  let s1 := (a / 4)%N in
  let s2 := ((a mod 4) * 16 + b / 16)%N in
  let s3 := ((b mod 16) * 4 + c / 64)%N in
  let s4 := (c mod 64)%N in
  (s1 < 64 /\ s2 < 64 /\ s3 < 64 /\ s4 < 64)%N
  /\ (s1 * 4 + s2 / 16 = a)%N
  /\ ((s2 mod 16) * 16 + s3 / 4 = b)%N
  /\ ((s3 mod 4) * 64 + s4 = c)%N.
Proof.
  intros Ha Hb Hc s1 s2 s3 s4. subst s1 s2 s3 s4.
  repeat split; nlia.
Qed.

Lemma b64_encode_3 a b c r :
  b64_encode (a :: b :: c :: r)
  = b64_char (a / 4)%N
    :: b64_char ((a mod 4) * 16 + b / 16)%N
    :: b64_char ((b mod 16) * 4 + c / 64)%N
    :: b64_char (c mod 64)%N
    :: b64_encode r.
Proof. reflexivity. Qed.

Lemma b64_encode_length s : (length (b64_encode s) mod 4 = 0)%nat.
Proof.
  induction s as [| a | a b | a b c r IH] using list_ind3; try reflexivity.
  rewrite b64_encode_3. cbn [length].
  replace (S (S (S (S (length (b64_encode r))))))
    with (length (b64_encode r) + 1 * 4)%nat by lia.
  rewrite Nat.Div0.mod_add. exact IH.
Qed.

Lemma b64_encode_chars s :
  latin1 s ->
  Forall (fun c => Base64.is_base64_char c = true \/ c = pad_char)
         (b64_encode s).
Proof.
  induction s as [| a | a b | a b c r IH] using list_ind3; intros L.
  - constructor.
  - apply latin1_cons in L as [Ha _]. cbn [b64_encode].
    repeat first
      [ apply Forall_nil
      | apply Forall_cons;
        [first [right; reflexivity | left; apply b64_char_is_base64; nlia]|] ].
  - apply latin1_cons in L as [Ha L]. apply latin1_cons in L as [Hb _].
    cbn [b64_encode].
    repeat first
      [ apply Forall_nil
      | apply Forall_cons;
        [first [right; reflexivity | left; apply b64_char_is_base64; nlia]|] ].
  - apply latin1_cons in L as [Ha L]. apply latin1_cons in L as [Hb L].
    apply latin1_cons in L as [Hc L].
    destruct (sextets_of_bytes a b c Ha Hb Hc) as ((L1 & L2 & L3 & L4) & _).
    rewrite b64_encode_3.
    repeat (apply Forall_cons;
            [left; apply b64_char_is_base64; assumption|]).
    auto.
Qed.

Lemma filter_whitespace_b64_encode s :
  latin1 s ->
  filter (fun c => negb (is_ascii_whitespace c)) (b64_encode s) = b64_encode s.
Proof.
  intros L. apply forallb_filter_id. apply forallb_forall.
  intros c Hc. pose proof (b64_encode_chars s L) as F.
  rewrite Forall_forall in F. destruct (F c Hc) as [H | ->].
  - now rewrite base64_char_not_whitespace.
  - reflexivity.
Qed.

Lemma drop_trailing_pad_cons c r :
  N.eqb c pad_char = false ->
  drop_trailing_pad (c :: r) = c :: drop_trailing_pad r.
Proof. intros H. simpl. rewrite H. reflexivity. Qed.

Lemma b64_values_cons c r v vs :
  b64_value c = Some v -> b64_values r = Some vs ->
  b64_values (c :: r) = Some (v :: vs).
Proof. intros H1 H2. simpl. rewrite H1, H2. reflexivity. Qed.

Lemma drop_pad_char i r :
  (i < 64)%N ->
  drop_trailing_pad (b64_char i :: r) = b64_char i :: drop_trailing_pad r.
Proof.
  intros H. apply drop_trailing_pad_cons, base64_char_not_pad.
  now apply b64_char_is_base64.
Qed.

(** Decoding the text [btoa] made, once its padding is dropped. *)
Lemma b64_decode_encode s :
  latin1 s ->
  exists v,
    b64_values (drop_trailing_pad (b64_encode s)) = Some v
    /\ b64_bytes v = s
    /\ (length (drop_trailing_pad (b64_encode s)) mod 4 <> 1)%nat.
Proof.
  induction s as [| a | a b | a b c r IH] using list_ind3; intros L.
  - exists []. repeat split. discriminate.
  - apply latin1_cons in L as [Ha _].
    exists [(a / 4)%N; ((a mod 4) * 16)%N].
    cbn [b64_encode].
    rewrite !drop_pad_char by nlia.
    change (drop_trailing_pad [pad_char; pad_char]) with (@nil N).
    split; [|split].
    + repeat (apply b64_values_cons; [apply b64_value_char; nlia|]). reflexivity.
    + cbn [b64_bytes]. f_equal. nlia.
    + discriminate.
  - apply latin1_cons in L as [Ha L]. apply latin1_cons in L as [Hb _].
    exists [(a / 4)%N; ((a mod 4) * 16 + b / 16)%N; ((b mod 16) * 4)%N].
    cbn [b64_encode].
    rewrite !drop_pad_char by nlia.
    change (drop_trailing_pad [pad_char]) with (@nil N).
    split; [|split].
    + repeat (apply b64_values_cons; [apply b64_value_char; nlia|]). reflexivity.
    + cbn [b64_bytes]. f_equal; [|f_equal]; nlia.
    + discriminate.
  - apply latin1_cons in L as [Ha L]. apply latin1_cons in L as [Hb L].
    apply latin1_cons in L as [Hc L].
    destruct (IH L) as (v & Hv & Hb64 & Hlen).
    destruct (sextets_of_bytes a b c Ha Hb Hc)
      as ((L1 & L2 & L3 & L4) & E1 & E2 & E3).
    exists ((a / 4)%N :: ((a mod 4) * 16 + b / 16)%N
            :: ((b mod 16) * 4 + c / 64)%N :: (c mod 64)%N :: v).
    rewrite b64_encode_3.
    rewrite !drop_pad_char by assumption.
    split; [|split].
    + repeat (apply b64_values_cons; [apply b64_value_char; assumption|]).
      exact Hv.
    + cbn [b64_bytes]. rewrite E1, E2, E3, Hb64. reflexivity.
    + cbn [length].
      replace (S (S (S (S (length (drop_trailing_pad (b64_encode r)))))))
        with (length (drop_trailing_pad (b64_encode r)) + 1 * 4)%nat by lia.
      rewrite Nat.Div0.mod_add. exact Hlen.
Qed.

(** [atob] inverts [btoa]. *)
Lemma atob_b64_encode s : latin1 s -> atob (b64_encode s) = Ok s.
Proof.
  intros L. unfold atob.
  rewrite (filter_whitespace_b64_encode s L), b64_encode_length.
  cbn [Nat.eqb].
  destruct (b64_decode_encode s L) as (v & Hv & Hb & Hlen).
  destruct (Nat.eqb_spec (length (drop_trailing_pad (b64_encode s)) mod 4) 1)
    as [E | _]; [contradiction|].
  rewrite Hv, Hb. reflexivity.
Qed.

Lemma btoa_ok s : latin1 s -> btoa s = Ok (b64_encode s).
Proof. unfold btoa, latin1. intros ->. reflexivity. Qed.

Lemma btoa_inv s b : btoa s = Ok b -> latin1 s /\ b = b64_encode s.
Proof.
  unfold btoa, latin1.
  destruct (forallb _ s); intros H; inversion H; auto.
Qed.

Lemma btoa_err s e : btoa s = Err e -> ~ latin1 s.
Proof.
  unfold btoa, latin1.
  destruct (forallb _ s); intros H; [discriminate | congruence].
Qed.

Lemma base64Pattern_b64_encode s :
  latin1 s -> Base64.base64Pattern_test (b64_encode s) = true.
Proof.
  induction s as [| a | a b | a b c r IH] using list_ind3; intros L.
  - reflexivity.
  - apply latin1_cons in L as [Ha _]. cbn [b64_encode Base64.base64Pattern_test].
    rewrite !b64_char_is_base64 by nlia. reflexivity.
  - apply latin1_cons in L as [Ha L]. apply latin1_cons in L as [Hb _].
    cbn [b64_encode Base64.base64Pattern_test].
    rewrite !b64_char_is_base64 by nlia. reflexivity.
  - apply latin1_cons in L as [Ha L]. apply latin1_cons in L as [Hb L].
    apply latin1_cons in L as [Hc L].
    destruct (sextets_of_bytes a b c Ha Hb Hc) as ((L1 & L2 & L3 & L4) & _).
    rewrite b64_encode_3. cbn [Base64.base64Pattern_test].
    rewrite !b64_char_is_base64 by assumption. auto.
Qed.

(** ** The URL-safe alphabet *)

Lemma to_url_safe_pad r : to_url_safe (pad_char :: r) = to_url_safe r.
Proof. reflexivity. Qed.

Lemma to_url_safe_char c r :
  Base64.is_base64_char c = true ->
  exists d, to_url_safe (c :: r) = d :: to_url_safe r
            /\ Spec.is_token_char d = true
            /\ from_url_safe (d :: to_url_safe r) = c :: from_url_safe (to_url_safe r).
Proof.
  intros H. unfold to_url_safe, from_url_safe, replace_all, remove_all.
  cbn [map filter].
  destruct (N.eqb_spec c 43) as [->|N43].
  - exists 45%N. repeat split.
  - destruct (N.eqb_spec c 47) as [->|N47].
    + exists 95%N. repeat split.
    + exists c.
      destruct (N.eqb_spec c 61) as [->|N61]; [discriminate H|].
      cbn [negb].
      destruct (N.eqb_spec c 45) as [->|N45]; [discriminate H|].
      destruct (N.eqb_spec c 95) as [->|N95]; [discriminate H|].
      repeat split.
      unfold Spec.is_token_char. unfold Base64.is_base64_char in H.
      apply orb_true_iff in H as [H|H]; [|apply N.eqb_eq in H; contradiction].
      apply orb_true_iff in H as [H|H]; [|apply N.eqb_eq in H; contradiction].
      rewrite H. reflexivity.
Qed.

Lemma addPadding_4 c1 c2 c3 c4 r :
  Base64.addPadding (c1 :: c2 :: c3 :: c4 :: r)
  = c1 :: c2 :: c3 :: c4 :: Base64.addPadding r.
Proof.
  unfold Base64.addPadding. cbn [length].
  replace (S (S (S (S (length r))))) with (length r + 1 * 4)%nat by lia.
  rewrite Nat.Div0.mod_add.
  destruct (Nat.eqb (4 - length r mod 4) 4); reflexivity.
Qed.

(** Restoring the alphabet and the padding of a token gives back the text
    [btoa] made. *)
Lemma addPadding_from_to_url_safe s :
  latin1 s ->
  Base64.addPadding (from_url_safe (to_url_safe (b64_encode s))) = b64_encode s.
Proof.
  induction s as [| a | a b | a b c r IH] using list_ind3; intros L.
  - reflexivity.
  - apply latin1_cons in L as [Ha _]. cbn [b64_encode].
    destruct (to_url_safe_char (b64_char (a / 4))
                (b64_char (a mod 4 * 16) :: [pad_char; pad_char]))
      as (d1 & -> & _ & ->); [apply b64_char_is_base64; nlia|].
    destruct (to_url_safe_char (b64_char (a mod 4 * 16)) [pad_char; pad_char])
      as (d2 & -> & _ & ->); [apply b64_char_is_base64; nlia|].
    reflexivity.
  - apply latin1_cons in L as [Ha L]. apply latin1_cons in L as [Hb _].
    cbn [b64_encode].
    destruct (to_url_safe_char (b64_char (a / 4))
                (b64_char (a mod 4 * 16 + b / 16)
                 :: b64_char (b mod 16 * 4) :: [pad_char]))
      as (d1 & -> & _ & ->); [apply b64_char_is_base64; nlia|].
    destruct (to_url_safe_char (b64_char (a mod 4 * 16 + b / 16))
                (b64_char (b mod 16 * 4) :: [pad_char]))
      as (d2 & -> & _ & ->); [apply b64_char_is_base64; nlia|].
    destruct (to_url_safe_char (b64_char (b mod 16 * 4)) [pad_char])
      as (d3 & -> & _ & ->); [apply b64_char_is_base64; nlia|].
    reflexivity.
  - apply latin1_cons in L as [Ha L]. apply latin1_cons in L as [Hb L].
    apply latin1_cons in L as [Hc L].
    destruct (sextets_of_bytes a b c Ha Hb Hc) as ((L1 & L2 & L3 & L4) & _).
    rewrite b64_encode_3.
    repeat match goal with
    | |- context [to_url_safe (b64_char ?i :: ?r)] =>
        let d := fresh "d" in
        destruct (to_url_safe_char (b64_char i) r)
          as (d & -> & _ & ->); [apply b64_char_is_base64; assumption|]
    end.
    rewrite addPadding_4, (IH L). reflexivity.
Qed.

(** A token holds characters of [[A-Za-z0-9_-]] only. *)
Lemma to_url_safe_chars s :
  latin1 s -> Forall (fun c => Spec.is_token_char c = true)
                     (to_url_safe (b64_encode s)).
Proof.
  intros L. pose proof (b64_encode_chars s L) as F.
  induction F as [| c r [Hc | ->] _ IH].
  - constructor.
  - destruct (to_url_safe_char c r Hc) as (d & -> & Hd & _).
    constructor; assumption.
  - rewrite to_url_safe_pad. exact IH.
Qed.

(** ** The codec of src/utils/base64.ts *)

Section CodecProperties.

Context {T : Type}.
Variable JSON_stringify : T -> stringified.
Variable JSON_parse : jsstring -> option T.

Lemma encodeToBase64_inv data base64 :
  Base64.encodeToBase64 JSON_stringify data = Ok base64 ->
  exists s, as_string_argument (JSON_stringify data) = Ok s
            /\ latin1 s /\ base64 = b64_encode s.
Proof.
  unfold Base64.encodeToBase64, bind.
  destruct (as_string_argument (JSON_stringify data)) as [s|e]; [|discriminate].
  destruct (btoa s) as [b|e] eqn:E; [|discriminate].
  intros H. inversion H; subst. apply btoa_inv in E as [L ->].
  exists s. auto.
Qed.

Lemma encodeToBase64_text data s :
  JSON_stringify data = Text s -> latin1 s ->
  Base64.encodeToBase64 JSON_stringify data = Ok (b64_encode s).
Proof.
  intros E L. unfold Base64.encodeToBase64, bind. rewrite E. cbn.
  rewrite (btoa_ok s L). reflexivity.
Qed.

Lemma encodeToUrlSafeBase64_inv data token :
  Base64.encodeToUrlSafeBase64 JSON_stringify data = Ok token ->
  exists s, as_string_argument (JSON_stringify data) = Ok s
            /\ latin1 s /\ token = to_url_safe (b64_encode s).
Proof.
  unfold Base64.encodeToUrlSafeBase64, bind.
  destruct (Base64.encodeToBase64 JSON_stringify data) as [b|e] eqn:E;
    [|discriminate].
  intros H. inversion H; subst.
  apply encodeToBase64_inv in E as (s & E1 & L & ->). exists s. auto.
Qed.

Lemma decodeFromBase64_b64_encode s v :
  latin1 s -> JSON_parse s = Some v ->
  Base64.decodeFromBase64 JSON_parse (b64_encode s) = Ok v.
Proof.
  intros L P. unfold Base64.decodeFromBase64, bind.
  rewrite (atob_b64_encode s L), P. reflexivity.
Qed.

(** The encoder throws exactly when [JSON.stringify] throws or its text has
    a code unit above U+00FF. *)
Theorem encodeToBase64_throws (data : T) :
  (exists e, Base64.encodeToBase64 JSON_stringify data = Err e)
  <-> (exists e, JSON_stringify data = Throws e)
      \/ (exists s, as_string_argument (JSON_stringify data) = Ok s
                    /\ ~ latin1 s).
Proof.
  unfold Base64.encodeToBase64, bind.
  destruct (JSON_stringify data) as [s| |e0]; cbn.
  - destruct (btoa s) as [b|e] eqn:E.
    + split.
      * intros [e H]. discriminate.
      * intros [[e H] | (s' & H & NL)]; [discriminate|].
        inversion H; subst. apply btoa_inv in E as [L _]. contradiction.
    + split.
      * intros _. right. exists s. split; [reflexivity|].
        eapply btoa_err; eauto.
      * intros _. eauto.
  - split.
    + intros [e H]. discriminate.
    + intros [[e H] | (s' & H & NL)]; [discriminate|].
      inversion H; subst. exfalso. apply NL. reflexivity.
  - split.
    + intros _. left. eauto.
    + intros _. eauto.
Qed.

(** Round trip on the serializable values whose JSON text [btoa] accepts:
    encoding returns a token, and decoding the token returns the value. *)
Theorem decode_encode_latin1 data :
  Spec.serializable JSON_stringify JSON_parse data ->
  (forall s, JSON_stringify data = Text s -> latin1 s) ->
  exists token,
    Base64.encodeToUrlSafeBase64 JSON_stringify data = Ok token
    /\ Base64.decodeFromUrlSafeBase64 JSON_parse token = Ok data.
Proof.
  intros (s & E & P) HL. pose proof (HL s E) as L.
  exists (to_url_safe (b64_encode s)). split.
  - unfold Base64.encodeToUrlSafeBase64.
    rewrite (encodeToBase64_text data s E L). reflexivity.
  - unfold Base64.decodeFromUrlSafeBase64.
    change (replace_all 95 47 (replace_all 45 43 (to_url_safe (b64_encode s))))
      with (from_url_safe (to_url_safe (b64_encode s))).
    cbv zeta. rewrite (addPadding_from_to_url_safe s L).
    apply decodeFromBase64_b64_encode; assumption.
Qed.

(** The padding step appends [(4 - len % 4) % 4] characters [=]. *)
Theorem addPadding_pad_length (base64 : jsstring) :
  Base64.addPadding base64
  = base64 ++ repeat 61%N (Spec.pad_length (length base64)).
Proof.
  unfold Base64.addPadding, Spec.pad_length.
  pose proof (Nat.mod_upper_bound (length base64) 4 ltac:(lia)) as B.
  destruct (Nat.eqb_spec (4 - length base64 mod 4) 4) as [E|NE]; cbn [negb].
  - replace (length base64 mod 4) with 0 by lia.
    cbn. now rewrite app_nil_r.
  - rewrite (Nat.mod_small (4 - length base64 mod 4) 4) by lia. reflexivity.
Qed.

End CodecProperties.

Lemma str_eqb_eq s t : str_eqb s t = true <-> s = t.
Proof.
  revert t. induction s as [|c s IH]; intros [|d t]; simpl;
    try (split; [discriminate | congruence]); try tauto.
  rewrite andb_true_iff, N.eqb_eq, IH. split.
  - intros [-> ->]. reflexivity.
  - intros H. inversion H. auto.
Qed.

Lemma filter_same_length {A} (f : A -> bool) l :
  length (filter f l) = length l -> filter f l = l.
Proof.
  induction l as [|x l IH]; simpl; [reflexivity|].
  destruct (f x); simpl; intros H.
  - f_equal. apply IH. lia.
  - pose proof (filter_length_le f l). lia.
Qed.

(** A text that passes the pattern and has no [=] is made of characters of
    the standard alphabet. *)
Lemma base64Pattern_no_pad x :
  Base64.base64Pattern_test x = true -> ~ In 61%N x ->
  Forall (fun c => Base64.is_base64_char c = true) x.
Proof.
  induction x as [|c x IH]; intros P NI; [constructor|].
  cbn [Base64.base64Pattern_test] in P.
  destruct (Base64.is_base64_char c) eqn:E.
  - constructor; [assumption|]. apply IH; [assumption|].
    intros H. apply NI. now right.
  - exfalso. apply NI.
    apply orb_true_iff in P as [P|P]; apply str_eqb_eq in P;
      inversion P; now left.
Qed.

Lemma remove_all_not_In c s : ~ In c (remove_all c s).
Proof.
  unfold remove_all. intros H. apply filter_In in H as [_ H].
  now rewrite N.eqb_refl in H.
Qed.

(** When the token is still made of standard characters, the two
    replacements changed nothing. *)
Lemma to_url_safe_standard e :
  Forall (fun c => Base64.is_base64_char c = true \/ c = pad_char) e ->
  Forall (fun c => Base64.is_base64_char c = true) (to_url_safe e) ->
  to_url_safe e = remove_all 61 e.
Proof.
  induction 1 as [| c r [Hc | ->] _ IH]; intros F.
  - reflexivity.
  - destruct (to_url_safe_char c r Hc) as (d & E & _ & _).
    revert E F. unfold to_url_safe, replace_all, remove_all. cbn [map filter].
    destruct (N.eqb_spec c 43) as [->|N43].
    { cbn. intros _ F. inversion F as [|? ? B _]. discriminate B. }
    destruct (N.eqb_spec c 47) as [->|N47].
    { cbn. intros _ F. inversion F as [|? ? B _]. discriminate B. }
    destruct (N.eqb_spec c 61) as [->|N61]; [discriminate Hc|].
    cbn [negb]. intros _ F. inversion F; subst. f_equal. apply IH. assumption.
  - rewrite to_url_safe_pad in *. unfold remove_all at 1. cbn [filter].
    change (N.eqb pad_char 61) with true. cbn [negb]. apply IH. assumption.
Qed.

(** [btoa] pads with at most two [=]. *)
Lemma b64_encode_pad_count s :
  latin1 s ->
  exists k, k <= 2
    /\ length (b64_encode s) = length (remove_all 61 (b64_encode s)) + k.
Proof.
  assert (R : forall i r, (i < 64)%N ->
             remove_all 61 (b64_char i :: r) = b64_char i :: remove_all 61 r).
  { intros i r Hi. unfold remove_all. cbn [filter].
    change 61%N with pad_char.
    rewrite (base64_char_not_pad _ (b64_char_is_base64 i Hi)). reflexivity. }
  induction s as [| a | a b | a b c r IH] using list_ind3; intros L.
  - exists 0. split; [lia | reflexivity].
  - apply latin1_cons in L as [Ha _]. exists 2. split; [lia|].
    cbn [b64_encode]. rewrite !R by nlia. reflexivity.
  - apply latin1_cons in L as [Ha L]. apply latin1_cons in L as [Hb _].
    exists 1. split; [lia|].
    cbn [b64_encode]. rewrite !R by nlia. reflexivity.
  - apply latin1_cons in L as [Ha L]. apply latin1_cons in L as [Hb L].
    apply latin1_cons in L as [Hc L].
    destruct (sextets_of_bytes a b c Ha Hb Hc) as ((L1 & L2 & L3 & L4) & _).
    destruct (IH L) as (k & Hk & E). exists k. split; [assumption|].
    rewrite b64_encode_3, !R by assumption. cbn [length]. lia.
Qed.

(** A token that is itself the output of [btoa] is the standard text. *)
Lemma to_url_safe_fixed s s' :
  latin1 s -> latin1 s' ->
  Base64.base64Pattern_test (to_url_safe (b64_encode s)) = true ->
  to_url_safe (b64_encode s) = b64_encode s' ->
  to_url_safe (b64_encode s) = b64_encode s.
Proof.
  intros L L' P E.
  assert (F : Forall (fun c => Base64.is_base64_char c = true)
                     (to_url_safe (b64_encode s))).
  { apply base64Pattern_no_pad; [assumption | apply remove_all_not_In]. }
  pose proof (to_url_safe_standard _ (b64_encode_chars s L) F) as E1.
  rewrite E1. apply filter_same_length.
  destruct (b64_encode_pad_count s L) as (k & Hk & Hlen).
  pose proof (b64_encode_length s) as M.
  pose proof (b64_encode_length s') as M'.
  rewrite <- E, E1 in M'. unfold remove_all in *.
  rewrite Hlen in M.
  destruct k as [|[|[|k]]]; try lia.
  - rewrite (Nat.Div0.add_mod _ 1 4), M' in M. discriminate M.
  - rewrite (Nat.Div0.add_mod _ 2 4), M' in M. discriminate M.
Qed.

(** ** Claims about the codec *)

(** C8. Token safety: a token returned by [encodeToUrlSafeBase64] holds only
    characters of [A-Za-z0-9_-]; no [+], [/] or [=] occurs in it.  This holds
    for every data type and every behaviour of [JSON.stringify]. *)
Theorem token_alphabet {T : Type} (JSON_stringify : T -> stringified)
  (data : T) (token : jsstring) :
  Base64.encodeToUrlSafeBase64 JSON_stringify data = Ok token ->
  Forall (fun c => Spec.is_token_char c = true) token
  /\ ~ In 43%N token /\ ~ In 47%N token /\ ~ In 61%N token.
Proof.
  intros H. apply encodeToUrlSafeBase64_inv in H as (s & _ & L & ->).
  pose proof (to_url_safe_chars s L) as F.
  split; [exact F|].
  rewrite Forall_forall in F.
  repeat split; intros I; apply F in I; discriminate I.
Qed.

(** The text [">>>>?"] has the standard encoding [Ij4+Pj4/Ig==]; its token
    is [Ij4-Pj4_Ig]. *)
Lemma token_alphabet_witness :
  Base64.encodeToUrlSafeBase64 Json.JSON_stringify
    (Json.JString (lit ">>>>?")) = Ok (lit "Ij4-Pj4_Ig")
  /\ Forall (fun c => Spec.is_token_char c = true) (lit "Ij4-Pj4_Ig")
  /\ ~ In 43%N (lit "Ij4-Pj4_Ig") /\ ~ In 47%N (lit "Ij4-Pj4_Ig")
  /\ ~ In 61%N (lit "Ij4-Pj4_Ig").
Proof.
  split; [reflexivity|].
  apply (token_alphabet Json.JSON_stringify (Json.JString (lit ">>>>?"))).
  reflexivity.
Defined.

(** C4, as stated, fails: the token of [null] is [bnVsbA], and
    [isValidBase64] rejects it, because decoding and re-encoding gives the
    padded [bnVsbA==]. *)
Lemma isValidBase64_rejects_token_of_null :
  Base64.encodeToUrlSafeBase64 Json.JSON_stringify Json.JNull
    = Ok (lit "bnVsbA")
  /\ Base64.isValidBase64 Json.JSON_stringify Json.JSON_parse (lit "bnVsbA")
     = false.
Proof. split; reflexivity. Qed.

(** C4, amended.  For every JSON-serializable value: the standard token
    that [encodeToBase64] returns passes [isValidBase64]; the URL-safe token
    passes exactly when it is that standard token, that is when no character
    was replaced or stripped. *)
Theorem isValidBase64_of_encoded {T : Type}
  (JSON_stringify : T -> stringified) (JSON_parse : jsstring -> option T)
  (data : T) :
  Spec.serializable JSON_stringify JSON_parse data ->
  (forall base64,
      Base64.encodeToBase64 JSON_stringify data = Ok base64 ->
      Base64.isValidBase64 JSON_stringify JSON_parse base64 = true)
  /\ (forall token,
         Base64.encodeToUrlSafeBase64 JSON_stringify data = Ok token ->
         (Base64.isValidBase64 JSON_stringify JSON_parse token = true
          <-> Base64.encodeToBase64 JSON_stringify data = Ok token)).
Proof.
  intros (s & E & P).
  assert (V : forall base64,
             Base64.encodeToBase64 JSON_stringify data = Ok base64 ->
             Base64.isValidBase64 JSON_stringify JSON_parse base64 = true).
  { intros base64 H.
    pose proof H as H'.
    apply encodeToBase64_inv in H' as (s' & E' & L & ->).
    rewrite E in E'. cbn in E'. inversion E'; subst s'.
    unfold Base64.isValidBase64.
    rewrite (base64Pattern_b64_encode s L). cbn [negb].
    rewrite (decodeFromBase64_b64_encode JSON_parse s data L P).
    cbn [bind]. rewrite H. cbn [bind].
    apply str_eqb_eq. reflexivity. }
  split; [exact V|].
  intros token H. split; [|apply V].
  intros Valid.
  apply encodeToUrlSafeBase64_inv in H as (s' & E' & L & ->).
  rewrite E in E'. cbn in E'. inversion E'; subst s'.
  rewrite (encodeToBase64_text JSON_stringify data s E L). f_equal.
  symmetry.
  unfold Base64.isValidBase64 in Valid.
  destruct (Base64.base64Pattern_test (to_url_safe (b64_encode s))) eqn:Pt;
    [|discriminate Valid].
  cbn [negb] in Valid.
  destruct (Base64.decodeFromBase64 JSON_parse (to_url_safe (b64_encode s)))
    as [d|e]; [|discriminate Valid].
  cbn [bind] in Valid.
  destruct (Base64.encodeToBase64 JSON_stringify d) as [re|e] eqn:Re;
    [|discriminate Valid].
  cbn [bind] in Valid. apply str_eqb_eq in Valid. subst re.
  apply encodeToBase64_inv in Re as (s2 & _ & L2 & E2).
  exact (to_url_safe_fixed s s2 L L2 Pt E2).
Qed.

(** The JSON string [">>>>?"]: its standard token [Ij4+Pj4/Ig==] is
    accepted, and its URL-safe token [Ij4-Pj4_Ig], which differs from it, is
    not. *)
Lemma isValidBase64_of_encoded_witness :
  Base64.isValidBase64 Json.JSON_stringify Json.JSON_parse
    (lit "Ij4+Pj4/Ig==") = true
  /\ Base64.isValidBase64 Json.JSON_stringify Json.JSON_parse
       (lit "Ij4-Pj4_Ig") <> true.
Proof.
  split.
  - refine (proj1 (isValidBase64_of_encoded Json.JSON_stringify
                     Json.JSON_parse (Json.JString (lit ">>>>?")) _) _ _).
    + eexists. split; reflexivity.
    + reflexivity.
  - intros V.
    refine (_ (proj1 (proj2 (isValidBase64_of_encoded Json.JSON_stringify
                       Json.JSON_parse (Json.JString (lit ">>>>?")) _)
                     (lit "Ij4-Pj4_Ig") _) V)).
    + discriminate.
    + eexists. split; reflexivity.
    + reflexivity.
Defined.

(** C1 fails on the code.  The JSON string of the two code units U+6771
    U+4EAC is JSON-serializable, yet [encodeToUrlSafeBase64] throws on it
    ([btoa] rejects code units above U+00FF), so decoding what was encoded
    does not give the value back. *)
Theorem encode_throws_outside_latin1 :
  let v := Json.JString [26481; 20140]%N in
  Spec.serializable Json.JSON_stringify Json.JSON_parse v
  /\ Base64.encodeToUrlSafeBase64 Json.JSON_stringify v
     = Err (Base64.FailedToEncode InvalidCharacterError)
  /\ (let* token := Base64.encodeToUrlSafeBase64 Json.JSON_stringify v in
      Base64.decodeFromUrlSafeBase64 Json.JSON_parse token) <> Ok v.
Proof.
  cbv zeta. split; [eexists; split; reflexivity|]. split; [reflexivity|].
  cbn. discriminate.
Qed.

(** C5 fails on the code.  A location list that satisfies the data model,
    with a name of two code units above U+00FF, is JSON-serializable, but the
    encoder throws on it, and so does the share action.  In the other
    direction, a value that [JSON.stringify] maps to [undefined] is encoded
    without an error. *)
Theorem encode_rejects_valid_location_list :
  let tokyo := Example.place 36 140 [26481; 20140]%N in
  Spec.valid_store [tokyo] = true
  /\ Spec.serializable Locations.JSON_stringify Locations.JSON_parse [tokyo]
  /\ Base64.encodeToUrlSafeBase64 Locations.JSON_stringify [tokyo]
     = Err (Base64.FailedToEncode InvalidCharacterError)
  /\ App.generateLocationsShareUrl Locations.JSON_stringify
       Locations.url_with_locations
       (App.setMapLocations [tokyo] (App.initialState false))
     = Err (Base64.FailedToEncode InvalidCharacterError)
  /\ Base64.encodeToBase64 (fun _ : unit => Undefined) tt
     = Ok (lit "dW5kZWZpbmVk").
Proof.
  cbv zeta. split; [reflexivity|].
  split; [eexists; split; reflexivity|].
  split; [reflexivity|]. split; reflexivity.
Qed.

(** The token [dGVzdA] is padded to [dGVzdA==], which [atob] decodes to the
    four characters [test]; that text is not JSON, so the decoder throws.
    The JSON string of the text [test] has the token [InRlc3Qi]. *)
Theorem token_of_test :
  Base64.addPadding (lit "dGVzdA") = lit "dGVzdA=="
  /\ atob (lit "dGVzdA==") = Ok (lit "test")
  /\ Base64.decodeFromUrlSafeBase64 Json.JSON_parse (lit "dGVzdA")
     = Err (Base64.FailedToDecode SyntaxError)
  /\ Base64.encodeToUrlSafeBase64 Json.JSON_stringify
       (Json.JString (lit "test")) = Ok (lit "InRlc3Qi")
  /\ Base64.decodeFromUrlSafeBase64 Json.JSON_parse (lit "InRlc3Qi")
     = Ok (Json.JString (lit "test")).
Proof. repeat split. Qed.


(** The round trip, on an object with a number and a string. *)
Lemma decode_encode_latin1_witness :
  let v := Json.JObject [(lit "lat", Json.JNumber 60);
                         (lit "name", Json.JString (lit "Oslo"))] in
  exists token,
    Base64.encodeToUrlSafeBase64 Json.JSON_stringify v = Ok token
    /\ Base64.decodeFromUrlSafeBase64 Json.JSON_parse token = Ok v.
Proof.
  cbv zeta.
  apply (decode_encode_latin1 Json.JSON_stringify Json.JSON_parse
           (Json.JObject [(lit "lat", Json.JNumber 60);
                          (lit "name", Json.JString (lit "Oslo"))])).
  - eexists. split; reflexivity.
  - intros s E. inversion E. reflexivity.
Defined.

(** ** The viewport fitter *)

Import App.

Lemma num_ltb_Num p q : num_ltb (Num p) (Num q) = true <-> (p < q)%Q.
Proof.
  cbn. rewrite negb_true_iff. split.
  - intros H. apply Qnot_le_lt. intros L. apply Qle_bool_iff in L. congruence.
  - intros H. destruct (Qle_bool q p) eqn:E; [|reflexivity].
    apply Qle_bool_iff in E. exfalso. apply (Qlt_not_le _ _ H E).
Qed.

Lemma num_ltb_Num_false p q : num_ltb (Num p) (Num q) = false <-> (q <= p)%Q.
Proof.
  cbn. rewrite negb_false_iff. apply Qle_bool_iff.
Qed.

Lemma num_max_NegInfinity x : num_max x NegInfinity = x.
Proof. destruct x; reflexivity. Qed.

(** The zoom of two or more locations, as the chain of comparisons of the
    source, on the span of the bounding box. *)
Lemma mapBounds_zoom_span a b rest isMobile :
  zoom (mapBounds (a :: b :: rest) isMobile)
  = (if num_ltb (Spec.span (a :: b :: rest)) (Num 0.01)
     then (if isMobile then 11 else 13)
     else if num_ltb (Spec.span (a :: b :: rest)) (Num 0.1)
     then (if isMobile then 8 else 10)
     else if num_ltb (Spec.span (a :: b :: rest)) (Num 1)
     then (if isMobile then 5 else 7)
     else if num_ltb (Spec.span (a :: b :: rest)) (Num 10)
     then (if isMobile then 3 else 5)
     else (if isMobile then 2 else 3))%Z.
Proof.
  unfold mapBounds, Spec.span, Spec.latSpan, Spec.lngSpan.
  cbv zeta. cbn [zoom].
  change (Math_max
            [num_sub (Math_max (map lat (a :: b :: rest)))
                     (Math_min (map lat (a :: b :: rest)));
             num_sub (Math_max (map lng (a :: b :: rest)))
                     (Math_min (map lng (a :: b :: rest)))])
    with (num_max
            (num_sub (Math_max (map lat (a :: b :: rest)))
                     (Math_min (map lat (a :: b :: rest))))
            (num_max
               (num_sub (Math_max (map lng (a :: b :: rest)))
                        (Math_min (map lng (a :: b :: rest))))
               NegInfinity)).
  rewrite num_max_NegInfinity. reflexivity.
Qed.

Lemma num_ltb_cases s c :
  (num_ltb (Num s) (Num c) = true /\ (s < c)%Q)
  \/ (num_ltb (Num s) (Num c) = false /\ (c <= s)%Q).
Proof.
  destruct (num_ltb (Num s) (Num c)) eqn:E.
  - left. split; [reflexivity|]. now apply num_ltb_Num.
  - right. split; [reflexivity|]. now apply num_ltb_Num_false.
Qed.



(** C6, as stated, fails for the singleton: in compact mode the zoom is 8,
    which is not one level below the regular zoom 10. *)
Lemma singleton_compact_zoom_not_one_lower :
  let p := {| lat := Num 0; lng := Num 0; name := lit "A";
              description := None |} in
  zoom (mapBounds [p] true) <> (zoom (mapBounds [p] false) - 1)%Z.
Proof. cbv zeta. cbn. discriminate. Qed.

(** C6, amended. With no location the fitter returns the fallback center
    (46.5197, 6.6323) with zoom 4, and 3 in compact mode; with one location
    it returns that location as the center with zoom 10, and 8 (two levels
    lower) in compact mode. *)
Theorem mapBounds_degenerate (p : MapLocation) (isMobile : bool) :
  center (mapBounds [] isMobile) = (Num 46.5197, Num 6.6323)
  /\ zoom (mapBounds [] false) = 4%Z
  /\ zoom (mapBounds [] true) = 3%Z
  /\ center (mapBounds [p] isMobile) = (lat p, lng p)
  /\ zoom (mapBounds [p] false) = 10%Z
  /\ zoom (mapBounds [p] true) = 8%Z
  /\ (zoom (mapBounds [p] true) = zoom (mapBounds [p] false) - 2)%Z.
Proof. repeat split. Qed.

(** The minimum and the maximum of a non-empty list of finite numbers are
    members of the list that bound it. *)
Lemma Math_min_finite x xs :
  Forall (fun y => exists q, y = Num q) (x :: xs) ->
  exists m, Math_min (x :: xs) = Num m
            /\ In (Num m) (x :: xs)
            /\ forall q, In (Num q) (x :: xs) -> (m <= q)%Q.
Proof.
  revert x. induction xs as [|y ys IH]; intros x F.
  - inversion F as [|? ? [q ->] _]; subst. exists q. cbn.
    split; [reflexivity|]. split; [now left|].
    intros q' [H|[]]. inversion H. lra.
  - inversion F as [|? ? [q ->] F']; subst.
    destruct (IH y F') as (m & Hm & Hin & Hle).
    change (Math_min (Num q :: y :: ys))
      with (num_min (Num q) (Math_min (y :: ys))).
    rewrite Hm. cbn [num_min].
    destruct (num_ltb (Num m) (Num q)) eqn:E.
    + apply num_ltb_Num in E. exists m. split; [reflexivity|].
      split; [now right|].
      intros q' [H|H]; [inversion H; subst; lra | now apply Hle].
    + apply num_ltb_Num_false in E. exists q. split; [reflexivity|].
      split; [now left|].
      intros q' [H|H]; [inversion H; subst; lra|].
      specialize (Hle q' H). lra.
Qed.

Lemma Math_max_finite x xs :
  Forall (fun y => exists q, y = Num q) (x :: xs) ->
  exists m, Math_max (x :: xs) = Num m
            /\ In (Num m) (x :: xs)
            /\ forall q, In (Num q) (x :: xs) -> (q <= m)%Q.
Proof.
  revert x. induction xs as [|y ys IH]; intros x F.
  - inversion F as [|? ? [q ->] _]; subst. exists q. cbn.
    split; [reflexivity|]. split; [now left|].
    intros q' [H|[]]. inversion H. lra.
  - inversion F as [|? ? [q ->] F']; subst.
    destruct (IH y F') as (m & Hm & Hin & Hle).
    change (Math_max (Num q :: y :: ys))
      with (num_max (Num q) (Math_max (y :: ys))).
    rewrite Hm. cbn [num_max].
    destruct (num_ltb (Num q) (Num m)) eqn:E.
    + apply num_ltb_Num in E. exists m. split; [reflexivity|].
      split; [now right|].
      intros q' [H|H]; [inversion H; subst; lra | now apply Hle].
    + apply num_ltb_Num_false in E. exists q. split; [reflexivity|].
      split; [now left|].
      intros q' [H|H]; [inversion H; subst; lra|].
      specialize (Hle q' H). lra.
Qed.

Lemma num_leb_Num p q : num_leb (Num p) (Num q) = true <-> (p <= q)%Q.
Proof. cbn. apply Qle_bool_iff. Qed.

(** A coordinate between two bounds, as the data model writes it. *)
Lemma within_bounds lo hi x :
  num_leb (Num lo) x && num_leb x (Num hi) = true <->
  exists q, x = Num q /\ (lo <= q <= hi)%Q.
Proof.
  split.
  - intros H. apply andb_true_iff in H as [H1 H2].
    destruct x as [| |q|]; try discriminate.
    exists q. split; [reflexivity|].
    apply num_leb_Num in H1. apply num_leb_Num in H2. auto.
  - intros (q & -> & H1 & H2).
    apply andb_true_iff. split; apply num_leb_Num; assumption.
Qed.

(** The midpoint of two members of a list whose members lie within
    [lo, hi] lies within [lo, hi]. *)
Lemma midpoint_within lo hi x xs :
  Forall (fun y => num_leb (Num lo) y && num_leb y (Num hi) = true) (x :: xs) ->
  num_leb (Num lo)
    (num_half (num_add (Math_min (x :: xs)) (Math_max (x :: xs))))
  && num_leb
       (num_half (num_add (Math_min (x :: xs)) (Math_max (x :: xs))))
       (Num hi) = true.
Proof.
  intros F.
  assert (Fin : Forall (fun y => exists q, y = Num q) (x :: xs)).
  { eapply Forall_impl; [|exact F]. cbv beta. intros y Hy.
    apply within_bounds in Hy as (q & -> & _). eauto. }
  destruct (Math_min_finite x xs Fin) as (m & -> & Im & _).
  destruct (Math_max_finite x xs Fin) as (M & -> & IM & _).
  rewrite Forall_forall in F.
  apply F, within_bounds in Im as (m' & Em & Bm). inversion Em; subst m'.
  apply F, within_bounds in IM as (M' & EM & BM). inversion EM; subst M'.
  apply within_bounds. eexists. split; [reflexivity|].
  split.
  - apply Qle_shift_div_l; lra.
  - apply Qle_shift_div_r; lra.
Qed.

(** The contract of the fitter: whatever the list, the zoom is one of nine
    values; and for a list of valid records the center is a valid
    coordinate pair. *)
Theorem mapBounds_contract (l : list MapLocation) (isMobile : bool) :
  In (zoom (mapBounds l isMobile)) [2; 3; 4; 5; 7; 8; 10; 11; 13]%Z
  /\ (Spec.valid_store l = true ->
      let c := center (mapBounds l isMobile) in
      num_leb (Num (-90)) (fst c) && num_leb (fst c) (Num 90) = true
      /\ num_leb (Num (-180)) (snd c) && num_leb (snd c) (Num 180) = true).
Proof.
  split.
  - destruct l as [|a [|b rest]].
    + destruct isMobile; cbn; tauto.
    + destruct isMobile; cbn; tauto.
    + rewrite mapBounds_zoom_span.
      repeat match goal with
             | |- context [if ?c then _ else _] => destruct c
             end; cbn; tauto.
  - intros V. cbv zeta.
    assert (Vl : Forall (fun r =>
               num_leb (Num (-90)) (lat r) && num_leb (lat r) (Num 90) = true
               /\ num_leb (Num (-180)) (lng r) && num_leb (lng r) (Num 180)
                  = true) l).
    { apply Forall_forall. intros r Hr.
      unfold Spec.valid_store in V. rewrite forallb_forall in V.
      specialize (V r Hr). unfold Spec.valid_location in V.
      apply andb_true_iff in V as [V _].
      apply andb_true_iff in V as [V B4]. apply andb_true_iff in V as [V B3].
      rewrite V, B3, B4. auto. }
    destruct l as [|a [|b rest]].
    + split; reflexivity.
    + inversion Vl as [|? ? [H1 H2] _]; subst. cbn. auto.
    + cbn [mapBounds center fst snd]. split.
      * apply (midpoint_within (-90) 90 (lat a) (map lat (b :: rest))).
        change (lat a :: map lat (b :: rest)) with (map lat (a :: b :: rest)).
        apply Forall_map. eapply Forall_impl; [|exact Vl]. cbv beta. tauto.
      * apply (midpoint_within (-180) 180 (lng a) (map lng (b :: rest))).
        change (lng a :: map lng (b :: rest)) with (map lng (a :: b :: rest)).
        apply Forall_map. eapply Forall_impl; [|exact Vl]. cbv beta. tauto.
Qed.

(** The default list: its center is valid and its zoom is 3. *)
Lemma mapBounds_contract_witness :
  let c := center (mapBounds defaultLocations false) in
  num_leb (Num (-90)) (fst c) && num_leb (fst c) (Num 90) = true
  /\ num_leb (Num (-180)) (snd c) && num_leb (snd c) (Num 180) = true.
Proof.
  cbv zeta.
  apply (proj2 (mapBounds_contract defaultLocations false)).
  reflexivity.
Defined.

(** ** The location store *)

Lemma truthy_true s : truthy s = true <-> s <> [].
Proof. destruct s; cbn; split; congruence. Qed.

Lemma defaultLocations_valid : Spec.valid_store defaultLocations = true.
Proof. reflexivity. Qed.

Lemma filter_index_app_last {A} (l : list A) (r : A) from :
  filter_index from (from + length l) (l ++ [r]) = l.
Proof.
  revert from. induction l as [|x l IH]; intros from; cbn [app length filter_index].
  - rewrite Nat.add_0_r, Nat.eqb_refl. reflexivity.
  - destruct (Nat.eqb_spec from (from + S (length l))) as [E|_]; [lia|].
    cbn [negb]. f_equal.
    replace (from + S (length l)) with (S from + length l) by lia.
    apply IH.
Qed.

Lemma filter_index_sublist {A} (P : A -> bool) (l : list A) from index :
  forallb P l = true -> forallb P (filter_index from index l) = true.
Proof.
  revert from. induction l as [|x l IH]; intros from H; [reflexivity|].
  cbn [forallb] in H. apply andb_true_iff in H as [Hx Hl].
  cbn [filter_index]. destruct (negb (Nat.eqb from index)).
  - cbn [forallb]. rewrite Hx. apply IH. assumption.
  - apply IH. assumption.
Qed.

(** An index outside the list deletes nothing. *)
Lemma filter_index_out_of_range {A} (l : list A) from index :
  index < from \/ from + length l <= index ->
  filter_index from index l = l.
Proof.
  revert from. induction l as [|x l IH]; intros from H; [reflexivity|].
  cbn [filter_index length] in *.
  destruct (Nat.eqb_spec from index) as [E|_]; [lia|].
  cbn [negb]. f_equal. apply IH. lia.
Qed.

(** What the form handler does when it accepts. *)
Lemma addLocation_accepts s s' :
  addLocation s = (s', []) ->
  exists r,
    mapLocations s' = mapLocations s ++ [r]
    /\ Spec.valid_location r = true
    /\ locationsShareUrl s' = locationsShareUrl s.
Proof.
  unfold addLocation.
  set (la := parseFloat (form_lat (newLocation s))).
  set (lo := parseFloat (form_lng (newLocation s))).
  destruct (isNaN la || isNaN lo
            || negb (truthy (trim (form_name (newLocation s))))) eqn:E1;
    [discriminate|].
  destruct (num_ltb la (Num (-90)) || num_gtb la (Num 90)
            || num_ltb lo (Num (-180)) || num_gtb lo (Num 180)) eqn:E2;
    [discriminate|].
  intros H. inversion H; subst; clear H. cbn [mapLocations locationsShareUrl].
  eexists. split; [reflexivity|]. split; [|reflexivity].
  apply orb_false_iff in E1 as [E1 Hn]. apply orb_false_iff in E1 as [Na No].
  apply orb_false_iff in E2 as [E2 B4]. apply orb_false_iff in E2 as [E2 B3].
  apply orb_false_iff in E2 as [B1 B2].
  apply negb_false_iff in Hn.
  unfold Spec.valid_location. cbn [lat lng name].
  rewrite Hn, andb_true_r.
  unfold num_gtb in *.
  destruct la as [| |p|]; try discriminate; destruct lo as [| |q|];
    try discriminate.
  cbn in B1, B2, B3, B4. cbn.
  apply negb_false_iff in B1, B2, B3, B4.
  rewrite B1, B2, B3, B4. reflexivity.
Qed.

(** What the form handler does when it rejects: nothing but an alert. *)
Lemma addLocation_rejects s s' m effects :
  addLocation s = (s', m :: effects) -> s' = s.
Proof.
  unfold addLocation.
  destruct (isNaN _ || isNaN _ || negb _); [intros H; now inversion H|].
  destruct (num_ltb _ _ || num_gtb _ _ || num_ltb _ _ || num_gtb _ _);
    intros H; now inversion H.
Qed.

(** The form handler and the delete handler keep the store valid. *)
Lemma addLocation_valid s :
  Spec.valid_store (mapLocations s) = true ->
  Spec.valid_store (mapLocations (fst (addLocation s))) = true.
Proof.
  intros V. destruct (addLocation s) as [s' [|m effects]] eqn:E.
  - apply addLocation_accepts in E as (r & Hm & Vr & _).
    cbn [fst]. rewrite Hm.
    unfold Spec.valid_store in *. rewrite forallb_app. cbn [forallb].
    rewrite V, Vr. reflexivity.
  - apply addLocation_rejects in E. subst. exact V.
Qed.

Lemma deleteLocation_valid index s :
  Spec.valid_store (mapLocations s) = true ->
  Spec.valid_store (mapLocations (deleteLocation index s)) = true.
Proof.
  intros V. cbn. apply filter_index_sublist. exact V.
Qed.

(** C2 fails on the code.  A share link whose payload is the token of
    [[{"lat":91,"lng":0,"name":""}]] seeds the store with that record, and a
    map click at longitude 190 appends its record: neither path checks
    anything, and the store is no longer valid.  The form handler rejects
    the same coordinates. *)
Theorem store_invariant_broken :
  (let s := fst (loadLocationsFromUrl Locations.JSON_parse
                   (Some (lit "W3sibGF0Ijo5MSwibG5nIjowLCJuYW1lIjoiIn1d"))
                   (initialState false)) in
   mapLocations s
   = [{| lat := Num 91; lng := Num 0; name := []; description := None |}]
   /\ Spec.valid_store (mapLocations s) = false)
  /\ (let s := handleMapAddLocation (Num 0) (Num 190) (lit "X", [])
                 (initialState false) in
      mapLocations s
      = defaultLocations
        ++ [{| lat := Num 0; lng := Num 190; name := lit "X";
               description := None |}]
      /\ Spec.valid_store (mapLocations s) = false)
  /\ (let s := Example.form_state defaultLocations "0" "190" "X" "" in
      addLocation s = (s, [Alert CoordinatesOutOfRange])).
Proof.
  cbv zeta. split; [|split].
  - split; reflexivity.
  - split; reflexivity.
  - reflexivity.
Qed.

Lemma Qeq_bool_refl_Num x :
  isNaN x = false -> num_eqb x x = true.
Proof.
  destruct x as [| |q|]; try reflexivity; [discriminate|].
  intros _. cbn. apply Qeq_bool_iff. reflexivity.
Qed.

Lemma str_eqb_refl s : str_eqb s s = true.
Proof. apply str_eqb_eq. reflexivity. Qed.

Lemma valid_location_eqb_refl r :
  Spec.valid_location r = true -> Spec.location_eqb r r = true.
Proof.
  unfold Spec.valid_location, Spec.location_eqb. intros V.
  repeat (apply andb_true_iff in V as [V ?]).
  rewrite !Qeq_bool_refl_Num, !str_eqb_refl.
  - destruct (description r); cbn; [apply str_eqb_refl | reflexivity].
  - destruct (lng r); try reflexivity; discriminate.
  - destruct (lat r); try reflexivity; discriminate.
Qed.

Lemma indexOf_app_last r l :
  Spec.indexOf r l = None ->
  Spec.location_eqb r r = true ->
  Spec.indexOf r (l ++ [r]) = Some (length l).
Proof.
  intros N R. induction l as [|x l IH]; cbn [app Spec.indexOf length].
  - rewrite R. reflexivity.
  - cbn [Spec.indexOf] in N. destruct (Spec.location_eqb x r); [discriminate|].
    destruct (Spec.indexOf r l); [discriminate|].
    rewrite IH; reflexivity.
Qed.

(** C9, as stated, fails when the store already holds a record equal to
    [r] before another record: with the store [[r; a]], adding [r] gives
    [[r; a; r]], the first occurrence of [r] is at index 0, and deleting
    there leaves [[a; r]], not [[r; a]]. *)
Lemma delete_first_occurrence_reorders :
  let r := Example.place 1 1 (lit "R") in
  let a := Example.place 2 2 (lit "A") in
  let s0 := Example.form_state [r; a] "1" "1" "R" "" in
  let s1 := fst (addLocation s0) in
  Spec.valid_location r = true
  /\ mapLocations s1 = [r; a; r]
  /\ Spec.indexOf r (mapLocations s1) = Some 0
  /\ mapLocations (deleteLocation 0 s1) = [a; r]
  /\ mapLocations (deleteLocation 0 s1) <> mapLocations s0.
Proof.
  cbv zeta. repeat split. cbn. discriminate.
Qed.

(** C9, amended.  An add that is accepted (from the form or from the map)
    appends one record [r] at the end of the sequence; deleting at that last
    index, the length of the sequence before the add, gives back the sequence
    as it was, in the same order; and that index is the index of the first
    occurrence of [r] whenever [r] is valid and no record of the sequence
    before the add equals it. *)
Theorem add_then_delete_last (s : State) :
  (forall s',
      addLocation s = (s', []) ->
      exists r,
        mapLocations s' = mapLocations s ++ [r]
        /\ mapLocations (deleteLocation (length (mapLocations s)) s')
           = mapLocations s
        /\ (Spec.indexOf r (mapLocations s) = None ->
            Spec.indexOf r (mapLocations s') = Some (length (mapLocations s))))
  /\ (forall la lo data,
        let s' := handleMapAddLocation la lo data s in
        exists r,
          mapLocations s' = mapLocations s ++ [r]
          /\ mapLocations (deleteLocation (length (mapLocations s)) s')
             = mapLocations s
          /\ (Spec.valid_location r = true ->
              Spec.indexOf r (mapLocations s) = None ->
              Spec.indexOf r (mapLocations s')
              = Some (length (mapLocations s)))).
Proof.
  split.
  - intros s' H. apply addLocation_accepts in H as (r & Hm & Vr & _).
    exists r. split; [exact Hm|]. split.
    + cbn. rewrite Hm. apply (filter_index_app_last (mapLocations s) r 0).
    + intros N. rewrite Hm. apply indexOf_app_last; [exact N|].
      apply valid_location_eqb_refl. exact Vr.
  - intros la lo data. cbv zeta. eexists. split; [reflexivity|]. split.
    + cbn. apply (filter_index_app_last (mapLocations s) _ 0).
    + intros Vr N. cbn [handleMapAddLocation mapLocations].
      apply indexOf_app_last; [exact N|].
      apply valid_location_eqb_refl. exact Vr.
Qed.

(** The default store, with Oslo (60, 11) added through the form and
    through the map: deleting at index 5 gives the default list back. *)
Lemma add_then_delete_last_witness :
  let s := Example.form_state defaultLocations "60" "11" "Oslo" "" in
  (exists r,
      mapLocations (fst (addLocation s)) = defaultLocations ++ [r]
      /\ mapLocations (deleteLocation 5 (fst (addLocation s)))
         = defaultLocations
      /\ (Spec.indexOf r defaultLocations = None ->
          Spec.indexOf r (mapLocations (fst (addLocation s))) = Some 5))
  /\ (let s' := handleMapAddLocation (Num 60) (Num 11) (lit "Oslo", []) s in
      exists r,
        mapLocations s' = defaultLocations ++ [r]
        /\ mapLocations (deleteLocation 5 s') = defaultLocations
        /\ (Spec.valid_location r = true ->
            Spec.indexOf r defaultLocations = None ->
            Spec.indexOf r (mapLocations s') = Some 5)).
Proof.
  cbv zeta. split.
  - apply (proj1 (add_then_delete_last
                    (Example.form_state defaultLocations "60" "11" "Oslo" ""))
                 (fst (addLocation
                    (Example.form_state defaultLocations "60" "11" "Oslo" "")))).
    reflexivity.
  - apply (proj2 (add_then_delete_last
                    (Example.form_state defaultLocations "60" "11" "Oslo" ""))
                 (Num 60) (Num 11) (lit "Oslo", [])).
Defined.

(** The form handler and the delete handler keep a valid store valid; so
    does the map handler when it is given valid coordinates and a name. *)
Theorem handlers_keep_validity (s : State) (index : nat)
  (la lo : number) (data : jsstring * jsstring) :
  Spec.valid_store (mapLocations s) = true ->
  Spec.valid_store (mapLocations (fst (addLocation s))) = true
  /\ Spec.valid_store (mapLocations (deleteLocation index s)) = true
  /\ (Spec.valid_location
        {| lat := la; lng := lo; name := fst data; description := None |}
      = true ->
      Spec.valid_store (mapLocations (handleMapAddLocation la lo data s))
      = true).
Proof.
  intros V. split; [now apply addLocation_valid|].
  split; [now apply deleteLocation_valid|].
  intros Vr. cbn [handleMapAddLocation mapLocations].
  unfold Spec.valid_store in *. rewrite forallb_app, V. cbn [forallb].
  unfold Spec.valid_location in *. cbn [lat lng name] in *.
  rewrite Vr. reflexivity.
Qed.

Lemma handlers_keep_validity_witness :
  let s := Example.form_state defaultLocations "60" "11" "Oslo" "" in
  Spec.valid_store (mapLocations (fst (addLocation s))) = true
  /\ Spec.valid_store (mapLocations (deleteLocation 2 s)) = true
  /\ (Spec.valid_location (Example.place 60 11 (lit "Oslo")) = true ->
      Spec.valid_store
        (mapLocations
           (handleMapAddLocation (Num 60) (Num 11) (lit "Oslo", []) s))
      = true).
Proof.
  cbv zeta.
  apply (handlers_keep_validity
           (Example.form_state defaultLocations "60" "11" "Oslo" "")
           2 (Num 60) (Num 11) (lit "Oslo", [])).
  reflexivity.
Defined.

(** The invariant of the data model holds in every state reached from the
    default list through the form, the delete buttons and the focus
    handling. *)
Theorem form_reachable_valid (mobile : bool) (s : State) :
  Spec.form_reachable mobile s -> Spec.valid_store (mapLocations s) = true.
Proof.
  induction 1 as [| s s' _ IH Step].
  - reflexivity.
  - destruct Step as [name value s | s | index s | location index s | s].
    + exact IH.
    + now apply addLocation_valid.
    + now apply deleteLocation_valid.
    + exact IH.
    + exact IH.
Qed.

(** Oslo is typed into the form and submitted, then the first record is
    deleted. *)
Lemma form_reachable_valid_witness :
  let s1 := handleLocationChange FieldLat (lit "60") (initialState false) in
  let s2 := handleLocationChange FieldLng (lit "11") s1 in
  let s3 := handleLocationChange FieldName (lit "Oslo") s2 in
  let s4 := fst (addLocation s3) in
  let s5 := deleteLocation 0 s4 in
  length (mapLocations s5) = 5
  /\ Spec.valid_store (mapLocations s5) = true.
Proof.
  cbv zeta. split; [reflexivity|].
  apply (form_reachable_valid false).
  repeat (eapply Spec.reach_step; [|constructor]).
  apply Spec.reach_initial.
Defined.

(** Deleting at an index outside the sequence changes nothing. *)
Theorem deleteLocation_out_of_range (s : State) (index : nat) :
  length (mapLocations s) <= index -> deleteLocation index s = s.
Proof.
  intros H. unfold deleteLocation.
  rewrite filter_index_out_of_range by lia.
  destruct s. reflexivity.
Qed.

Lemma deleteLocation_out_of_range_witness :
  deleteLocation 5 (initialState false) = initialState false.
Proof.
  apply (deleteLocation_out_of_range (initialState false) 5).
  cbn. lia.
Defined.

(** A latitude of 91 typed into the form is rejected with the message about
    the coordinate ranges, whatever the store holds. *)
Theorem addLocation_rejects_latitude_91 (l : list MapLocation) :
  addLocation (Example.form_state l "91" "0" "X" "")
  = (Example.form_state l "91" "0" "X" "", [Alert CoordinatesOutOfRange]).
Proof. reflexivity. Qed.

(** Without a [locations] parameter the store keeps its default list; with
    a token that does not decode it keeps it too and shows an alert. *)
Theorem loadLocationsFromUrl_failure
  (JSON_parse : jsstring -> option (list MapLocation))
  (s : State) (token : jsstring) (e : Base64.error) :
  loadLocationsFromUrl JSON_parse None s = (s, [])
  /\ (token <> [] ->
      Base64.decodeFromUrlSafeBase64 JSON_parse token = Err e ->
      loadLocationsFromUrl JSON_parse (Some token) s
      = (s, [Alert InvalidLocationsData])).
Proof.
  split; [reflexivity|].
  intros NE H. apply truthy_true in NE. unfold loadLocationsFromUrl.
  rewrite NE, H. reflexivity.
Qed.

(** The token [!] is no base64 text. *)
Lemma loadLocationsFromUrl_failure_witness :
  loadLocationsFromUrl Locations.JSON_parse (Some (lit "!"))
    (initialState false)
  = (initialState false, [Alert InvalidLocationsData]).
Proof.
  apply (proj2 (loadLocationsFromUrl_failure Locations.JSON_parse
                  (initialState false) (lit "!")
                  (Base64.FailedToDecode InvalidCharacterError))).
  - discriminate.
  - reflexivity.
Defined.

(** ** The share link *)

(** No handler that changes the location list touches the stored share
    URL. *)
Lemma mutations_keep_share_url s index la lo data :
  locationsShareUrl (fst (addLocation s)) = locationsShareUrl s
  /\ locationsShareUrl (deleteLocation index s) = locationsShareUrl s
  /\ locationsShareUrl (handleMapAddLocation la lo data s)
     = locationsShareUrl s.
Proof.
  split; [|split; reflexivity].
  destruct (addLocation s) as [s' [|m effects]] eqn:E; cbn [fst].
  - apply addLocation_accepts in E as (r & _ & _ & H). exact H.
  - apply addLocation_rejects in E. now subst.
Qed.

(** C10. Once a share URL is stored (the string is not empty), the copy
    action writes that stored URL to the clipboard and encodes nothing, also
    after the location list has been changed by any handler, so the copied URL
    is the one generated from the older list; only with no stored URL does it
    generate a URL from the current list, and with an empty list it copies
    nothing. *)
Theorem copy_reuses_stored_url
  (JSON_stringify : list MapLocation -> stringified)
  (url_with_locations : jsstring -> jsstring)
  (clipboard_ok : bool) (s : State) :
  let copy := copyLocationsShareUrl JSON_stringify url_with_locations
                clipboard_ok in
  let copied url :=
    [ClipboardWrite url;
     Alert (if clipboard_ok then ShareUrlCopied else CopyFailed)] in
  (locationsShareUrl s <> [] ->
   copy s = Ok (s, copied (locationsShareUrl s)))
  /\ (forall s1 url l',
        generateLocationsShareUrl JSON_stringify url_with_locations s
        = Ok (s1, url) ->
        url <> [] ->
        copy (setMapLocations l' s1) = Ok (setMapLocations l' s1, copied url)
        /\ copy (fst (addLocation s1)) = Ok (fst (addLocation s1), copied url))
  /\ (forall token,
        locationsShareUrl s = [] ->
        mapLocations s <> [] ->
        Base64.encodeToUrlSafeBase64 JSON_stringify (mapLocations s)
        = Ok token ->
        url_with_locations token <> [] ->
        copy s = Ok (setLocationsShareUrl (url_with_locations token) s,
                     copied (url_with_locations token)))
  /\ (locationsShareUrl s = [] -> mapLocations s = [] -> copy s = Ok (s, [])).
Proof.
  cbv zeta.
  assert (Stored : forall s0,
             locationsShareUrl s0 <> [] ->
             copyLocationsShareUrl JSON_stringify url_with_locations
               clipboard_ok s0
             = Ok (s0, [ClipboardWrite (locationsShareUrl s0);
                        Alert (if clipboard_ok then ShareUrlCopied
                               else CopyFailed)])).
  { intros s0 H. apply truthy_true in H. unfold copyLocationsShareUrl.
    rewrite H. cbn [bind]. rewrite H. reflexivity. }
  split; [apply Stored|]. split; [|split].
  - intros s1 url l' G Hurl.
    assert (U : locationsShareUrl s1 = url).
    { unfold generateLocationsShareUrl in G.
      destruct (Nat.ltb 0 (length (mapLocations s))).
      - unfold bind in G.
        destruct (Base64.encodeToUrlSafeBase64 _ _); [|discriminate].
        inversion G; subst. reflexivity.
      - inversion G; subst. contradiction. }
    split.
    + rewrite Stored; cbn [setMapLocations locationsShareUrl]; congruence.
    + rewrite Stored;
        rewrite (proj1 (mutations_keep_share_url s1 0 NaN NaN ([], [])));
        congruence.
  - intros token E NE Tok Hurl. unfold copyLocationsShareUrl.
    rewrite E. cbn [truthy]. unfold generateLocationsShareUrl.
    destruct (mapLocations s) as [|x l] eqn:M; [contradiction|].
    cbn [length Nat.ltb Nat.leb]. rewrite Tok. cbn [bind].
    apply truthy_true in Hurl. rewrite Hurl. reflexivity.
  - intros E M. unfold copyLocationsShareUrl, generateLocationsShareUrl.
    rewrite E, M. reflexivity.
Qed.

(** Four states: one with a stored URL; the default list shared and then
    extended with Oslo through the form, where the copy action still writes
    the URL generated from the default list; the default list with no stored
    URL; and an empty list. *)
Lemma copy_reuses_stored_url_witness :
  let s := Example.form_state defaultLocations "60" "11" "Oslo" "" in
  let copy := copyLocationsShareUrl Locations.JSON_stringify
                Locations.url_with_locations true in
  (let stored := setLocationsShareUrl (Locations.url_with_locations []) s in
   copy stored
   = Ok (stored, [ClipboardWrite (Locations.url_with_locations []);
                  Alert ShareUrlCopied]))
  /\ (exists s1 url,
        generateLocationsShareUrl Locations.JSON_stringify
          Locations.url_with_locations s = Ok (s1, url)
        /\ length (mapLocations (fst (addLocation s1))) = 6
        /\ copy (fst (addLocation s1))
           = Ok (fst (addLocation s1),
                 [ClipboardWrite url; Alert ShareUrlCopied]))
  /\ (exists token,
        Base64.encodeToUrlSafeBase64 Locations.JSON_stringify (mapLocations s)
        = Ok token
        /\ copy s
           = Ok (setLocationsShareUrl (Locations.url_with_locations token) s,
                 [ClipboardWrite (Locations.url_with_locations token);
                  Alert ShareUrlCopied]))
  /\ copy (setMapLocations [] s) = Ok (setMapLocations [] s, []).
Proof.
  cbv zeta. split; [|split; [|split]].
  - refine (proj1 (copy_reuses_stored_url Locations.JSON_stringify
                     Locations.url_with_locations true _) _).
    discriminate.
  - eexists. eexists. split; [reflexivity|]. split; [reflexivity|].
    refine (proj2 (proj1 (proj2
      (copy_reuses_stored_url Locations.JSON_stringify
         Locations.url_with_locations true
         (Example.form_state defaultLocations "60" "11" "Oslo" ""))) _ _ [] _ _)).
    + reflexivity.
    + discriminate.
  - eexists. split; [reflexivity|].
    refine (proj1 (proj2 (proj2
      (copy_reuses_stored_url Locations.JSON_stringify
         Locations.url_with_locations true
         (Example.form_state defaultLocations "60" "11" "Oslo" ""))))
      _ _ _ _ _).
    + reflexivity.
    + discriminate.
    + reflexivity.
    + discriminate.
  - refine (proj2 (proj2 (proj2
      (copy_reuses_stored_url Locations.JSON_stringify
         Locations.url_with_locations true _))) _ _); reflexivity.
Defined.

(** With an empty list the share action returns the empty string and
    stores nothing. *)
Theorem generateLocationsShareUrl_empty
  (JSON_stringify : list MapLocation -> stringified)
  (url_with_locations : jsstring -> jsstring) (s : State) :
  mapLocations s = [] ->
  generateLocationsShareUrl JSON_stringify url_with_locations s = Ok (s, []).
Proof.
  intros H. unfold generateLocationsShareUrl. rewrite H. reflexivity.
Qed.

Lemma generateLocationsShareUrl_empty_witness :
  generateLocationsShareUrl Locations.JSON_stringify
    Locations.url_with_locations (setMapLocations [] (initialState false))
  = Ok (setMapLocations [] (initialState false), []).
Proof.
  apply (generateLocationsShareUrl_empty Locations.JSON_stringify
           Locations.url_with_locations
           (setMapLocations [] (initialState false))).
  reflexivity.
Defined.

(** ** The focus timer *)

(** C3 fails on the code.  Location 0 is focused at time 0 and location 1 at
    time 3000.  Until time 4999 the focus is on location 1 and two clears are
    pending, due at 5000 and 8000; at time 5000 the clear scheduled by the
    first click runs and removes the focus of the second click, 2000 ms after
    it was set, while that click's own clear is still pending. *)
Theorem older_timer_clears_newer_focus :
  let w0 := {| state := initialState false; now := 0; timers := [] |} in
  let w := run [(0%Z, 0); (3000%Z, 1)] w0 in
  openPopupLocationIndex (state (advance 4999 w)) = Some 1
  /\ timers (advance 4999 w) = [5000; 8000]%Z
  /\ openPopupLocationIndex (state (advance 5000 w)) = None
  /\ targetLocation (state (advance 5000 w)) = None
  /\ timers (advance 5000 w) = [8000]%Z.
Proof. cbv zeta. repeat split. Qed.



(* ================================================================= *)
(** * Part II, continued: further properties *)
(* ================================================================= *)

(** ** More about the codec *)

(** [isValidBase64] accepts a string exactly when decoding it and encoding
    the result again gives the string back: the pattern check that comes
    first rejects nothing that this comparison would accept.  An accepted
    string has a length that is a multiple of four. *)
Theorem isValidBase64_iff {T : Type}
  (JSON_stringify : T -> stringified) (JSON_parse : jsstring -> option T)
  (str : jsstring) :
  (Base64.isValidBase64 JSON_stringify JSON_parse str = true
   <-> exists v, Base64.decodeFromBase64 JSON_parse str = Ok v
                 /\ Base64.encodeToBase64 JSON_stringify v = Ok str)
  /\ (Base64.isValidBase64 JSON_stringify JSON_parse str = true ->
      length str mod 4 = 0).
Proof.
  assert (Fwd : Base64.isValidBase64 JSON_stringify JSON_parse str = true ->
                exists v, Base64.decodeFromBase64 JSON_parse str = Ok v
                          /\ Base64.encodeToBase64 JSON_stringify v = Ok str).
  { unfold Base64.isValidBase64.
    destruct (Base64.base64Pattern_test str); [|discriminate].
    cbn [negb].
    destruct (Base64.decodeFromBase64 JSON_parse str) as [v|e]; [|discriminate].
    cbn [bind].
    destruct (Base64.encodeToBase64 JSON_stringify v) as [re|e] eqn:Re;
      [|discriminate].
    cbn [bind]. intros H. apply str_eqb_eq in H. subst re. eauto. }
  split; [split; [exact Fwd|] |].
  - intros (v & D & E).
    pose proof E as E'. apply encodeToBase64_inv in E' as (s & _ & L & ->).
    unfold Base64.isValidBase64.
    rewrite (base64Pattern_b64_encode s L). cbn [negb].
    rewrite D. cbn [bind]. rewrite E. cbn [bind]. apply str_eqb_refl.
  - intros V. destruct (Fwd V) as (v & _ & E).
    apply encodeToBase64_inv in E as (s & _ & L & ->).
    apply b64_encode_length.
Qed.





Lemma to_url_safe_b64_length s :
  latin1 s -> length (to_url_safe (b64_encode s)) = (4 * length s + 2) / 3.
Proof.
  induction s as [| a | a b | a b c r IH] using list_ind3; intros L.
  - reflexivity.
  - apply latin1_cons in L as [Ha _]. cbn [b64_encode].
    destruct (to_url_safe_char (b64_char (a / 4)) 
                [b64_char (a mod 4 * 16); pad_char; pad_char])
      as (d1 & -> & _); [apply b64_char_is_base64; nlia|].
    destruct (to_url_safe_char (b64_char (a mod 4 * 16)) [pad_char; pad_char])
      as (d2 & -> & _); [apply b64_char_is_base64; nlia|].
    reflexivity.
  - apply latin1_cons in L as [Ha L]. apply latin1_cons in L as [Hb _].
    cbn [b64_encode].
    destruct (to_url_safe_char (b64_char (a / 4))
                [b64_char (a mod 4 * 16 + b / 16); b64_char (b mod 16 * 4);
                 pad_char])
      as (d1 & -> & _); [apply b64_char_is_base64; nlia|].
    destruct (to_url_safe_char (b64_char (a mod 4 * 16 + b / 16))
                [b64_char (b mod 16 * 4); pad_char])
      as (d2 & -> & _); [apply b64_char_is_base64; nlia|].
    destruct (to_url_safe_char (b64_char (b mod 16 * 4)) [pad_char])
      as (d3 & -> & _); [apply b64_char_is_base64; nlia|].
    reflexivity.
  - apply latin1_cons in L as [Ha L]. apply latin1_cons in L as [Hb L].
    apply latin1_cons in L as [Hc L].
    rewrite b64_encode_3.
    destruct (to_url_safe_char (b64_char (a / 4))
                (b64_char (a mod 4 * 16 + b / 16)
                 :: b64_char (b mod 16 * 4 + c / 64)
                 :: b64_char (c mod 64) :: b64_encode r))
      as (d1 & -> & _); [apply b64_char_is_base64; nlia|].
    destruct (to_url_safe_char (b64_char (a mod 4 * 16 + b / 16))
                (b64_char (b mod 16 * 4 + c / 64)
                 :: b64_char (c mod 64) :: b64_encode r))
      as (d2 & -> & _); [apply b64_char_is_base64; nlia|].
    destruct (to_url_safe_char (b64_char (b mod 16 * 4 + c / 64))
                (b64_char (c mod 64) :: b64_encode r))
      as (d3 & -> & _); [apply b64_char_is_base64; nlia|].
    destruct (to_url_safe_char (b64_char (c mod 64)) (b64_encode r))
      as (d4 & -> & _); [apply b64_char_is_base64; nlia|].
    cbn [length]. rewrite (IH L).
    replace (4 * S (S (S (length r))) + 2) with ((4 * length r + 2) + 4 * 3)
      by lia.
    rewrite Nat.div_add by lia. lia.
Qed.

Lemma b64_encode_full_length s : length (b64_encode s) = 4 * ((length s + 2) / 3).
Proof.
  induction s as [| a | a b | a b c r IH] using list_ind3; try reflexivity.
  rewrite b64_encode_3. cbn [length]. rewrite IH.
  replace (S (S (S (length r))) + 2) with ((length r + 2) + 1 * 3) by lia.
  rewrite Nat.div_add by lia. lia.
Qed.

(** The length of a token is determined by the length [n] of the JSON text:
    [4 * ceil(n / 3)] characters in the standard form and
    [ceil(4 * n / 3)] in the URL-safe form, which is never 1 modulo 4. *)
Theorem token_length {T : Type}
  (JSON_stringify : T -> stringified) (v : T) (text : jsstring) :
  as_string_argument (JSON_stringify v) = Ok text ->
  (forall base64, Base64.encodeToBase64 JSON_stringify v = Ok base64 ->
     length base64 = 4 * ((length text + 2) / 3))
  /\ (forall token, Base64.encodeToUrlSafeBase64 JSON_stringify v = Ok token ->
        length token = (4 * length text + 2) / 3
        /\ length token mod 4 <> 1).
Proof.
  intros E. split.
  - intros base64 H. apply encodeToBase64_inv in H as (s & E' & _ & ->).
    rewrite E in E'. inversion E'. apply b64_encode_full_length.
  - intros token H. apply encodeToUrlSafeBase64_inv in H as (s & E' & L & ->).
    rewrite E in E'. inversion E'; subst s.
    rewrite (to_url_safe_b64_length text L). split; [reflexivity|].
    pose proof (Nat.div_mod_eq (4 * length text + 2) 3).
    pose proof (Nat.mod_upper_bound (4 * length text + 2) 3).
    pose proof (Nat.div_mod_eq ((4 * length text + 2) / 3) 4).
    pose proof (Nat.mod_upper_bound ((4 * length text + 2) / 3) 4).
    lia.
Qed.

(** The text [null] has four characters, its token [bnVsbA] six. *)
Lemma token_length_witness :
  length (lit "bnVsbA") = (4 * 4 + 2) / 3 /\ length (lit "bnVsbA") mod 4 <> 1.
Proof.
  exact (proj2 (token_length Json.JSON_stringify Json.JNull (lit "null")
                  eq_refl) (lit "bnVsbA") eq_refl).
Defined.

Lemma from_url_safe_standard e :
  Forall (fun c => Base64.is_base64_char c = true \/ c = pad_char) e ->
  from_url_safe e = e.
Proof.
  induction 1 as [| c r H _ IH]; [reflexivity|].
  unfold from_url_safe, replace_all in *. cbn [map]. rewrite IH. f_equal.
  destruct H as [H | ->]; [|reflexivity].
  destruct (N.eqb_spec c 45) as [-> | _]; [discriminate H|].
  destruct (N.eqb_spec c 95) as [-> | _]; [discriminate H|]. reflexivity.
Qed.

Lemma addPadding_multiple_of_4 e : length e mod 4 = 0 -> Base64.addPadding e = e.
Proof. unfold Base64.addPadding. intros ->. reflexivity. Qed.

(** [decodeFromUrlSafeBase64] also accepts the standard form: what
    [encodeToBase64] returns, padding included, decodes to the value. *)
Theorem decodeFromUrlSafeBase64_standard {T : Type}
  (JSON_stringify : T -> stringified) (JSON_parse : jsstring -> option T)
  (v : T) (base64 : jsstring) :
  Spec.serializable JSON_stringify JSON_parse v ->
  Base64.encodeToBase64 JSON_stringify v = Ok base64 ->
  Base64.decodeFromUrlSafeBase64 JSON_parse base64 = Ok v.
Proof.
  intros (t & St & P) H.
  apply encodeToBase64_inv in H as (s & E & L & ->).
  rewrite St in E. cbn in E. inversion E; subst s.
  unfold Base64.decodeFromUrlSafeBase64. fold (from_url_safe (b64_encode t)).
  rewrite (from_url_safe_standard _ (b64_encode_chars t L)).
  rewrite (addPadding_multiple_of_4 _ (b64_encode_length t)).
  now apply decodeFromBase64_b64_encode.
Qed.

Lemma decodeFromUrlSafeBase64_standard_witness :
  Base64.decodeFromUrlSafeBase64 Json.JSON_parse (lit "Ik9zbG8i")
  = Ok (Json.JString (lit "Oslo")).
Proof.
  apply (decodeFromUrlSafeBase64_standard Json.JSON_stringify Json.JSON_parse
           (Json.JString (lit "Oslo")) (lit "Ik9zbG8i")).
  - eexists. split; reflexivity.
  - reflexivity.
Defined.

Lemma drop_trailing_pad_three y :
  In pad_char (drop_trailing_pad (y ++ [pad_char; pad_char; pad_char])).
Proof.
  induction y as [|c y IH]; [left; reflexivity|].
  cbn [app drop_trailing_pad].
  destruct (y ++ [pad_char; pad_char; pad_char]) as [|d1 [|d2 r]] eqn:E.
  - destruct y; discriminate E.
  - destruct y as [|? [|? ?]]; discriminate E.
  - rewrite andb_false_r. right. exact IH.
Qed.

Lemma b64_values_pad s : In pad_char s -> b64_values s = None.
Proof.
  induction s as [|c s IH]; [intros []|]. intros [-> | H]; cbn [b64_values].
  - reflexivity.
  - rewrite (IH H). now destruct (b64_value c).
Qed.

Lemma atob_three_pads x :
  atob (x ++ [pad_char; pad_char; pad_char]) = Err InvalidCharacterError.
Proof.
  unfold atob. cbv zeta. rewrite filter_app.
  replace (filter (fun c => negb (is_ascii_whitespace c))
                  [pad_char; pad_char; pad_char])
    with [pad_char; pad_char; pad_char] by reflexivity.
  match goal with
  | |- context [b64_values ?d] => assert (I : In pad_char d)
  end.
  { destruct (Nat.eqb _ 0).
    - apply drop_trailing_pad_three.
    - apply in_or_app. right. left. reflexivity. }
  rewrite (b64_values_pad _ I). now destruct (Nat.eqb _ 1).
Qed.

(** A token whose length is 1 modulo 4 is never decoded: three [=] are
    appended, and [atob] rejects the result, whatever the characters are. *)
Theorem decodeFromUrlSafeBase64_length_1_mod_4 {T : Type}
  (JSON_parse : jsstring -> option T) (token : jsstring) :
  length token mod 4 = 1 ->
  Base64.decodeFromUrlSafeBase64 JSON_parse token
  = Err (Base64.FailedToDecode InvalidCharacterError).
Proof.
  intros H. unfold Base64.decodeFromUrlSafeBase64, Base64.addPadding.
  unfold replace_all. rewrite !length_map, H. cbn [Nat.sub Nat.eqb negb repeat].
  unfold Base64.decodeFromBase64.
  change [61%N; 61%N; 61%N] with [pad_char; pad_char; pad_char].
  rewrite atob_three_pads. reflexivity.
Qed.

Lemma decodeFromUrlSafeBase64_length_1_mod_4_witness :
  Base64.decodeFromUrlSafeBase64 Json.JSON_parse (lit "bnVsb")
  = Err (Base64.FailedToDecode InvalidCharacterError).
Proof.
  apply (decodeFromUrlSafeBase64_length_1_mod_4 Json.JSON_parse (lit "bnVsb")).
  reflexivity.
Defined.

(** ** The page *)

Lemma trimStart_head c r :
  is_js_whitespace c = false -> trimStart (c :: r) = c :: r.
Proof. intros H. cbn [trimStart]. now rewrite H. Qed.

Lemma trimStart_cases s :
  trimStart s = []
  \/ exists c r, trimStart s = c :: r /\ is_js_whitespace c = false.
Proof.
  induction s as [|c s IH]; [now left|].
  cbn [trimStart]. destruct (is_js_whitespace c) eqn:E; [exact IH|].
  right. eauto.
Qed.

Lemma trimStart_idempotent s : trimStart (trimStart s) = trimStart s.
Proof.
  destruct (trimStart_cases s) as [-> | (c & r & -> & H)]; [reflexivity|].
  now apply trimStart_head.
Qed.

Lemma trimStart_snoc y c :
  is_js_whitespace c = false -> exists x, trimStart (y ++ [c]) = x ++ [c].
Proof.
  intros H. induction y as [|d y IH].
  - exists []. now apply trimStart_head.
  - cbn [app trimStart]. destruct (is_js_whitespace d); [exact IH|].
    now exists (d :: y).
Qed.

(** What [trim] returns is empty or begins and ends with a character that
    is no white space, so trimming it again changes nothing. *)
Lemma trim_idempotent s : trim (trim s) = trim s.
Proof.
  unfold trim.
  destruct (trimStart_cases s) as [-> | (c & r & -> & H)]; [reflexivity|].
  cbn [rev].
  pose proof (trimStart_idempotent (rev r ++ [c])) as I.
  destruct (trimStart_snoc (rev r) c H) as (x & E).
  rewrite E in I |- *.
  assert (R : rev (x ++ [c]) = c :: rev x)
    by (rewrite rev_app_distr; reflexivity).
  rewrite R, (trimStart_head c (rev x) H), <- R, rev_involutive, I.
  reflexivity.
Qed.

Lemma num_leb_not_ltb x y : num_leb x y = true -> num_ltb y x = false.
Proof.
  destruct x, y; cbn; try discriminate; try reflexivity.
  intros ->. reflexivity.
Qed.

Lemma num_ltb_false_leb x y :
  isNaN x = false -> isNaN y = false -> num_ltb y x = false -> num_leb x y = true.
Proof.
  destruct x, y; cbn; try discriminate; try reflexivity.
  intros _ _ H. now apply negb_false_iff in H.
Qed.

(** The form handler stores a record exactly when the record it builds
    satisfies the data model. *)
Lemma addLocation_accepts_iff s :
  Spec.valid_location (UI.form_record s) = true
  <-> addLocation s
      = ({| mapLocations := mapLocations s ++ [UI.form_record s];
            newLocation := emptyForm;
            showAddLocationForm := false;
            locationsShareUrl := locationsShareUrl s;
            isMapAddingMode := isMapAddingMode s;
            targetLocation := targetLocation s;
            openPopupLocationIndex := openPopupLocationIndex s;
            isMobile := isMobile s |}, []).
Proof.
  unfold Spec.valid_location, UI.form_record, addLocation. cbn [lat lng name].
  set (la := parseFloat (form_lat (newLocation s))).
  set (lo := parseFloat (form_lng (newLocation s))).
  set (n := trim (form_name (newLocation s))).
  unfold num_gtb. split.
  - intros V. repeat (apply andb_true_iff in V as [V ?]).
    assert (isNaN la = false) as -> by (destruct la; try reflexivity; discriminate).
    assert (isNaN lo = false) as -> by (destruct lo; try reflexivity; discriminate).
    rewrite (num_leb_not_ltb _ _ V).
    repeat match goal with
           | H : num_leb _ _ = true |- _ =>
               rewrite (num_leb_not_ltb _ _ H); clear H
           end.
    match goal with H : truthy n = true |- _ => rewrite H end.
    reflexivity.
  - destruct (isNaN la) eqn:Na; [discriminate|].
    destruct (isNaN lo) eqn:No; [discriminate|].
    destruct (truthy n) eqn:Tn; [|discriminate]. cbn [orb negb].
    destruct (num_ltb la (Num (-90))) eqn:E1; [discriminate|].
    destruct (num_ltb (Num 90) la) eqn:E2; [discriminate|].
    destruct (num_ltb lo (Num (-180))) eqn:E3; [discriminate|].
    destruct (num_ltb (Num 180) lo) eqn:E4; [discriminate|].
    intros _.
    rewrite !num_ltb_false_leb by (assumption || reflexivity). reflexivity.
Qed.

Lemma addLocation_rejects_iff s :
  Spec.valid_location (UI.form_record s) = false
  <-> exists m, addLocation s = (s, [Alert m]).
Proof.
  split.
  - intros V.
    assert (C : (exists m, addLocation s = (s, [Alert m]))
                \/ exists s', addLocation s = (s', [])).
    { unfold addLocation.
      destruct (isNaN _ || isNaN _ || negb _); [eauto|].
      destruct (num_ltb _ _ || num_gtb _ _ || num_ltb _ _ || num_gtb _ _);
        eauto. }
    destruct C as [C | (s' & A)]; [exact C|].
    pose proof A as A'. apply addLocation_accepts in A' as (r & _ & _ & _).
    exfalso.
    assert (Spec.valid_location (UI.form_record s) = true); [|congruence].
    apply addLocation_accepts_iff.
    revert A. unfold addLocation, UI.form_record.
    destruct (isNaN _ || isNaN _ || negb _); [discriminate|].
    destruct (num_ltb _ _ || num_gtb _ _ || num_ltb _ _ || num_gtb _ _);
      [discriminate|].
    reflexivity.
  - intros (m & H).
    destruct (Spec.valid_location (UI.form_record s)) eqn:V; [|reflexivity].
    apply addLocation_accepts_iff in V. rewrite V in H. discriminate.
Qed.


Lemma addLocation_fst s :
  fst (addLocation s) = s
  \/ (Spec.valid_location (UI.form_record s) = true
      /\ fst (addLocation s)
         = {| mapLocations := mapLocations s ++ [UI.form_record s];
              newLocation := emptyForm;
              showAddLocationForm := false;
              locationsShareUrl := locationsShareUrl s;
              isMapAddingMode := isMapAddingMode s;
              targetLocation := targetLocation s;
              openPopupLocationIndex := openPopupLocationIndex s;
              isMobile := isMobile s |}).
Proof.
  destruct (Spec.valid_location (UI.form_record s)) eqn:V.
  - right. split; [reflexivity|].
    apply addLocation_accepts_iff in V. now rewrite V.
  - left. apply addLocation_rejects_iff in V as (m & ->). reflexivity.
Qed.

Lemma generateLocationsShareUrl_state
  (JSON_stringify : list MapLocation -> stringified)
  (url_with_locations : jsstring -> jsstring) s s' url :
  generateLocationsShareUrl JSON_stringify url_with_locations s = Ok (s', url) ->
  s' = s \/ s' = setLocationsShareUrl url s.
Proof.
  unfold generateLocationsShareUrl.
  destruct (Nat.ltb 0 (length (mapLocations s))).
  - destruct (Base64.encodeToUrlSafeBase64 JSON_stringify (mapLocations s));
      cbn [bind]; [|discriminate].
    intros H. inversion H. now right.
  - intros H. inversion H. now left.
Qed.

Lemma copyLocationsShareUrl_state
  (JSON_stringify : list MapLocation -> stringified)
  (url_with_locations : jsstring -> jsstring) ok s s' effects :
  copyLocationsShareUrl JSON_stringify url_with_locations ok s
  = Ok (s', effects) ->
  s' = s \/ exists url, s' = setLocationsShareUrl url s.
Proof.
  unfold copyLocationsShareUrl.
  destruct (truthy (locationsShareUrl s)).
  - cbn [bind]. destruct (truthy (locationsShareUrl s));
      intros H; inversion H; now left.
  - destruct (generateLocationsShareUrl JSON_stringify url_with_locations s)
      as [[s1 url]|e] eqn:G; cbn [bind]; [|discriminate].
    apply generateLocationsShareUrl_state in G.
    destruct (truthy url); intros H; inversion H; subst;
      destruct G as [-> | ->]; eauto.
Qed.

(** In every state of the page, whatever the URL held and whatever the
    user did, the add-location form and the map's adding mode are never on
    together, and the map's target and the index of the popup to open are
    set together and cleared together. *)
Theorem page_consistent
  (JSON_stringify : list MapLocation -> stringified)
  (JSON_parse : jsstring -> option (list MapLocation))
  (url_with_locations : jsstring -> jsstring)
  (mobile : bool) (locationsParam : option jsstring) (u : UI.UI) :
  UI.reachable JSON_stringify JSON_parse url_with_locations
               mobile locationsParam u ->
  UI.consistent u.
Proof.
  unfold UI.consistent.
  induction 1 as [| u u' _ [IH1 IH2] Step].
  - unfold loadLocationsFromUrl.
    destruct locationsParam as [param|]; [|cbn; tauto].
    destruct (truthy param); [|cbn; tauto].
    destruct (Base64.decodeFromUrlSafeBase64 JSON_parse param); cbn; tauto.
  - destruct Step; cbn [UI.with_app UI.app UI.mapClick UI.cancelPendingForm].
    + cbn. tauto.
    + cbn. tauto.
    + cbn. tauto.
    + cbn. tauto.
    + cbn. tauto.
    + destruct (addLocation_fst (UI.app u)) as [-> | [_ ->]]; cbn; tauto.
    + cbn. tauto.
    + cbn. split; [exact IH1|]. split; discriminate.
    + cbn. split; [exact IH1|]. split; reflexivity.
    + match goal with
      | G : generateLocationsShareUrl _ _ _ = _ |- _ =>
          apply generateLocationsShareUrl_state in G as [-> | ->]
      end; cbn; tauto.
    + match goal with
      | G : copyLocationsShareUrl _ _ _ _ = _ |- _ =>
          apply copyLocationsShareUrl_state in G as [-> | [url ->]]
      end; cbn; tauto.
    + tauto.
    + unfold UI.submitPendingForm.
      destruct (UI.pendingLocation u) as [[la lo]|]; [|tauto].
      destruct (MapComponent.LocationForm_handleSubmit _ _); [|tauto].
      cbn. rewrite andb_false_r. tauto.
    + tauto.
Qed.

(** The page is opened with a parameter that is no token, then Click Add is
    pressed. *)
Lemma page_consistent_witness :
  UI.consistent
    (UI.with_app
       (Panel.clickAddButton
          (fst (loadLocationsFromUrl Locations.JSON_parse (Some (lit "!"))
                  (initialState false))))
       (UI.initial false)).
Proof.
  apply (page_consistent Locations.JSON_stringify Locations.JSON_parse
           Locations.url_with_locations false (Some (lit "!"))).
  eapply UI.reach_step; [apply UI.reach_mount|].
  apply (UI.step_clickAdd Locations.JSON_stringify Locations.url_with_locations
           (UI.with_app
              (fst (loadLocationsFromUrl Locations.JSON_parse (Some (lit "!"))
                      (initialState false)))
              (UI.initial false))).
  reflexivity.
Defined.

Lemma filter_index_Forall {A} (P : A -> Prop) (l : list A) from index :
  Forall P l -> Forall P (filter_index from index l).
Proof.
  intros F. revert from. induction F as [|x l Hx _ IH]; intros from.
  - constructor.
  - cbn [filter_index]. destruct (negb (Nat.eqb from index)); auto.
Qed.

Lemma defaultLocations_tidy : Forall UI.tidy defaultLocations.
Proof.
  repeat constructor; try discriminate; vm_compute; reflexivity.
Qed.

Lemma tidy_record la lo n d :
  truthy (trim n) = true ->
  UI.tidy {| lat := la; lng := lo; name := trim n;
             description := if truthy (trim d) then Some (trim d) else None |}.
Proof.
  intros Tn. unfold UI.tidy. cbn [name description].
  split; [now apply truthy_true|]. split; [apply trim_idempotent|].
  destruct (truthy (trim d)) eqn:Td; [|exact I].
  split; [now apply truthy_true | apply trim_idempotent].
Qed.

Lemma form_record_tidy s :
  Spec.valid_location (UI.form_record s) = true -> UI.tidy (UI.form_record s).
Proof.
  intros V. apply tidy_record.
  unfold Spec.valid_location in V. apply andb_true_iff in V as [_ V]. exact V.
Qed.

(** On a page opened without a [locations] parameter, every record of
    the list, whatever the user did, has a name that is not empty and has no
    white space at either end, and a description that is absent or not empty
    and without white space at either end. *)
Theorem page_records_tidy
  (JSON_stringify : list MapLocation -> stringified)
  (JSON_parse : jsstring -> option (list MapLocation))
  (url_with_locations : jsstring -> jsstring)
  (mobile : bool) (u : UI.UI) :
  UI.reachable JSON_stringify JSON_parse url_with_locations mobile None u ->
  Forall UI.tidy (mapLocations (UI.app u)).
Proof.
  induction 1 as [| u u' _ IH Step].
  - apply defaultLocations_tidy.
  - destruct Step; cbn [UI.with_app UI.app UI.mapClick UI.cancelPendingForm];
      try exact IH.
    + destruct (addLocation_fst (UI.app u)) as [-> | [V ->]]; [exact IH|].
      cbn [mapLocations]. apply Forall_app. split; [exact IH|].
      constructor; [|constructor]. now apply form_record_tidy.
    + cbn [deleteLocation setMapLocations mapLocations].
      now apply filter_index_Forall.
    + match goal with
      | G : generateLocationsShareUrl _ _ _ = _ |- _ =>
          apply generateLocationsShareUrl_state in G as [-> | ->]
      end; exact IH.
    + match goal with
      | G : copyLocationsShareUrl _ _ _ _ = _ |- _ =>
          apply copyLocationsShareUrl_state in G as [-> | [url ->]]
      end; exact IH.
    + unfold UI.submitPendingForm, MapComponent.LocationForm_handleSubmit.
      destruct (UI.pendingLocation u) as [[la lo]|]; [|exact IH].
      match goal with
      | |- context [truthy (trim ?n)] => destruct (truthy (trim n)) eqn:Tn
      end; [|exact IH].
      cbn [UI.app handleMapAddLocation mapLocations fst snd].
      apply Forall_app. split; [exact IH|].
      constructor; [|constructor]. now apply tidy_record.
Qed.

(** Click Add is pressed, the map is clicked and the pending form is
    submitted with a name between spaces. *)
Lemma page_records_tidy_witness :
  let u1 := UI.with_app (Panel.clickAddButton (initialState false))
                        (UI.initial false) in
  let u2 := UI.mapClick (Num 60) (Num 11) u1 in
  let u3 := UI.submitPendingForm (lit " Oslo ") (lit " ") u2 in
  length (mapLocations (UI.app u3)) = 6
  /\ Forall UI.tidy (mapLocations (UI.app u3)).
Proof.
  cbv zeta. split; [reflexivity|].
  apply (page_records_tidy Locations.JSON_stringify Locations.JSON_parse
           Locations.url_with_locations false).
  eapply UI.reach_step;
    [eapply UI.reach_step;
       [eapply UI.reach_step; [apply UI.reach_mount|] |] |].
  - apply UI.step_clickAdd. reflexivity.
  - apply (UI.step_mapClick _ _ (Num 60) (Num 11)).
  - apply (UI.step_pendingSubmit _ _ (lit " Oslo ") (lit " ")). reflexivity.
Defined.

(** ** Deleting, and the focus *)

Lemma filter_index_firstn_skipn {A} (l : list A) from k :
  filter_index from (from + k) l = firstn k l ++ skipn (S k) l.
Proof.
  revert from k. induction l as [|x l IH]; intros from k.
  - now destruct k.
  - cbn [filter_index]. destruct k as [|k].
    + rewrite Nat.add_0_r, Nat.eqb_refl. cbn [negb firstn skipn app].
      apply filter_index_out_of_range. left. lia.
    + destruct (Nat.eqb_spec from (from + S k)) as [E|_]; [lia|].
      cbn [negb firstn skipn app]. f_equal.
      replace (from + S k) with (S from + k) by lia. apply IH.
Qed.

(** Deleting at an index inside the list removes exactly the record at
    that index: the list gets one shorter, the records before the index keep
    their index, the records after it move down by one, and no other part of
    the state changes. *)
Theorem deleteLocation_in_range (s : State) (index : nat) :
  index < length (mapLocations s) ->
  let s' := deleteLocation index s in
  mapLocations s'
  = firstn index (mapLocations s) ++ skipn (S index) (mapLocations s)
  /\ S (length (mapLocations s')) = length (mapLocations s)
  /\ (forall i, i < index ->
        nth_error (mapLocations s') i = nth_error (mapLocations s) i)
  /\ (forall i, index <= i ->
        nth_error (mapLocations s') i = nth_error (mapLocations s) (S i))
  /\ s' = setMapLocations (mapLocations s') s.
Proof.
  intros H. cbv zeta. unfold deleteLocation.
  cbn [setMapLocations mapLocations].
  pose proof (filter_index_firstn_skipn (mapLocations s) 0 index) as F.
  cbn [Nat.add] in F. rewrite F. clear F.
  split; [reflexivity|].
  assert (L : length (firstn index (mapLocations s)) = index)
    by (rewrite length_firstn; lia).
  split; [rewrite length_app, L, length_skipn; lia|].
  split; [|split; [|reflexivity]].
  - intros i Hi. rewrite nth_error_app1 by lia. rewrite nth_error_firstn.
    destruct (Nat.ltb_spec i index); [reflexivity | lia].
  - intros i Hi. rewrite nth_error_app2 by lia. rewrite L.
    rewrite nth_error_skipn. f_equal. lia.
Qed.

Lemma deleteLocation_in_range_witness :
  S (length (mapLocations (deleteLocation 1 (initialState false))))
  = length defaultLocations
  /\ nth_error (mapLocations (deleteLocation 1 (initialState false))) 1
     = nth_error defaultLocations 2.
Proof.
  destruct (deleteLocation_in_range (initialState false) 1)
    as (_ & H & _ & H' & _).
  - cbn. lia.
  - split; [exact H | apply H'; lia].
Defined.






(** ** The focus expires *)

Lemma filter_none_due t (ts : list Z) :
  existsb (fun due => (due <=? t)%Z) ts = false ->
  filter (fun due => negb (due <=? t)%Z) ts = ts.
Proof.
  induction ts as [|d ts IH]; [reflexivity|].
  cbn [existsb filter]. intros H. apply orb_false_iff in H as [-> H].
  cbn [negb]. now rewrite IH.
Qed.

Lemma filter_all_due t (ts : list Z) :
  Forall (fun due => (due <= t)%Z) ts ->
  filter (fun due => negb (due <=? t)%Z) ts = []
  /\ (ts <> [] -> existsb (fun due => (due <=? t)%Z) ts = true).
Proof.
  induction 1 as [|d ts Hd _ [IH _]]; [split; [reflexivity | congruence]|].
  apply Z.leb_le in Hd. cbn [existsb filter]. rewrite Hd. cbn [negb orb].
  split; [exact IH | reflexivity].
Qed.

Lemma advance_covers tl t w :
  (tl <= t)%Z -> Timeline.timers_cover tl w ->
  Timeline.timers_cover t (advance t w).
Proof.
  intros Ht [F U]. unfold Timeline.timers_cover, advance. cbn [timers state].
  split.
  - apply Forall_forall. intros due Hin. apply filter_In in Hin as [Hin _].
    rewrite Forall_forall in F. specialize (F due Hin). lia.
  - destruct (existsb (fun due => (due <=? t)%Z) (timers w)) eqn:E.
    + intros _. split; reflexivity.
    + rewrite (filter_none_due _ _ E). exact U.
Qed.

Lemma click_covers tl t index w :
  (tl <= t)%Z -> Timeline.timers_cover tl w ->
  Timeline.timers_cover t (click t index w).
Proof.
  intros Ht C. pose proof (advance_covers tl t w Ht C) as [F U].
  unfold click.
  destruct (nth_error (mapLocations (state (advance t w))) index) as [l|];
    [|split; assumption].
  cbn [handleLocationClick]. unfold Timeline.timers_cover. cbn [timers state].
  split.
  - apply Forall_app. split; [exact F|]. cbn. constructor; [lia|constructor].
  - intros E. apply app_eq_nil in E as [_ E]. discriminate E.
Qed.

Lemma run_covers clicks : forall tl w,
  Timeline.chronological tl clicks = true ->
  Timeline.timers_cover tl w ->
  Timeline.timers_cover (Timeline.last_click tl clicks) (run clicks w).
Proof.
  induction clicks as [|[t i] clicks IH]; intros tl w Hc C; [exact C|].
  cbn [Timeline.chronological fst] in Hc.
  apply andb_true_iff in Hc as [Ht Hc]. apply Z.leb_le in Ht.
  unfold run. cbn [fold_left Timeline.last_click fst snd].
  apply (IH t (click t i w) Hc). now apply (click_covers tl).
Qed.

(** The focus never outlives the last click by more than five seconds:
    after any clicks on the list that come in the order of their times, once
    5000 ms have passed since the last of them no record has the focus and no
    timer is pending. *)
Theorem focus_expires (s : State) (t0 t : Z) (clicks : list (Z * nat)) :
  Timeline.unfocused s ->
  Timeline.chronological t0 clicks = true ->
  (Timeline.last_click t0 clicks + 5000 <= t)%Z ->
  let w := advance t (run clicks {| state := s; now := t0; timers := [] |}) in
  Timeline.unfocused (state w) /\ timers w = [].
Proof.
  intros U Hc Ht. cbv zeta.
  assert (C0 : Timeline.timers_cover t0 {| state := s; now := t0; timers := [] |})
    by (split; [constructor | intros _; exact U]).
  destruct (run_covers clicks t0 _ Hc C0) as [F N].
  set (w := run clicks _) in *.
  assert (D : Forall (fun due => (due <= t)%Z) (timers w)).
  { eapply Forall_impl; [|exact F]. cbv beta. intros due H. lia. }
  destruct (filter_all_due t (timers w) D) as [E X].
  unfold advance. cbn [state timers]. split; [|exact E].
  destruct (timers w) as [|d ts] eqn:T.
  - cbn [existsb]. now apply N.
  - rewrite X by discriminate. split; reflexivity.
Qed.

Lemma focus_expires_witness :
  let w := advance 9000%Z
             (run [(1000%Z, 0); (3000%Z, 2); (4000%Z, 1)]
                  {| state := initialState false; now := 0%Z; timers := [] |}) in
  Timeline.unfocused (state w) /\ timers w = [].
Proof.
  apply (focus_expires (initialState false) 0%Z 9000%Z
           [(1000%Z, 0); (3000%Z, 2); (4000%Z, 1)]).
  - split; reflexivity.
  - reflexivity.
  - cbn. lia.
Defined.

(** ** The fitter and the bounding box *)

Lemma valid_location_finite r :
  Spec.valid_location r = true ->
  exists la lo, lat r = Num la /\ lng r = Num lo
                /\ (-90 <= la <= 90)%Q /\ (-180 <= lo <= 180)%Q.
Proof.
  unfold Spec.valid_location. intros V.
  apply andb_true_iff in V as [V _].
  apply andb_true_iff in V as [V B4]. apply andb_true_iff in V as [V B3].
  apply andb_true_iff in V as [B1 B2].
  destruct (lat r) as [| |la|]; try discriminate.
  destruct (lng r) as [| |lo|]; try discriminate.
  apply num_leb_Num in B1, B2, B3, B4. exists la, lo. auto.
Qed.

Lemma valid_store_finite (f : MapLocation -> number) l :
  f = lat \/ f = lng ->
  Spec.valid_store l = true -> Forall (fun y => exists q, y = Num q) (map f l).
Proof.
  intros Hf V. apply Forall_map, Forall_forall. intros r Hr.
  unfold Spec.valid_store in V. rewrite forallb_forall in V.
  destruct (valid_location_finite r (V r Hr)) as (la & lo & Ea & Eo & _).
  destruct Hf as [-> | ->]; eauto.
Qed.

(** The least and the greatest member of a non-empty list of numbers. *)
Lemma extent x xs :
  Forall (fun y => exists q, y = Num q) (x :: xs) ->
  exists m M,
    Math_min (x :: xs) = Num m /\ Math_max (x :: xs) = Num M
    /\ In (Num m) (x :: xs) /\ In (Num M) (x :: xs)
    /\ (forall q, In (Num q) (x :: xs) -> (m <= q <= M)%Q).
Proof.
  intros F.
  destruct (Math_min_finite x xs F) as (m & Hm & Im & Lm).
  destruct (Math_max_finite x xs F) as (M & HM & IM & LM).
  exists m, M. repeat split; auto.
Qed.

Lemma num_max_Num p q :
  exists s, num_max (Num p) (Num q) = Num s
            /\ (p <= s)%Q /\ (q <= s)%Q /\ (s = p \/ s = q).
Proof.
  unfold num_max. destruct (num_ltb_cases p q) as [[-> H] | [-> H]].
  - exists q. repeat split; auto; lra.
  - exists p. repeat split; auto; lra.
Qed.

(** The span of a non-empty list of valid records, from the bounding box. *)
Lemma span_extent a l :
  Spec.valid_store (a :: l) = true ->
  exists m M n N s,
    Math_min (map lat (a :: l)) = Num m /\ Math_max (map lat (a :: l)) = Num M
    /\ Math_min (map lng (a :: l)) = Num n
    /\ Math_max (map lng (a :: l)) = Num N
    /\ Spec.span (a :: l) = Num s
    /\ (M - m <= s)%Q /\ (N - n <= s)%Q /\ (s == M - m \/ s == N - n)%Q
    /\ (forall r la lo, In r (a :: l) -> lat r = Num la -> lng r = Num lo ->
          (m <= la <= M)%Q /\ (n <= lo <= N)%Q)
    /\ (exists r, In r (a :: l) /\ lat r = Num m)
    /\ (exists r, In r (a :: l) /\ lat r = Num M)
    /\ (exists r, In r (a :: l) /\ lng r = Num n)
    /\ (exists r, In r (a :: l) /\ lng r = Num N).
Proof.
  intros V.
  pose proof (valid_store_finite lat (a :: l) (or_introl eq_refl) V) as Fa.
  pose proof (valid_store_finite lng (a :: l) (or_intror eq_refl) V) as Fo.
  cbn [map] in Fa, Fo.
  destruct (extent _ _ Fa) as (m & M & Hm & HM & Im & IM & Ba).
  destruct (extent _ _ Fo) as (n & N & Hn & HN & In_ & IN & Bo).
  cbn [map]. unfold Spec.span, Spec.latSpan, Spec.lngSpan. cbn [map].
  rewrite Hm, HM, Hn, HN. cbn [num_sub num_neg num_add].
  destruct (num_max_Num (M + - m) (N + - n)) as (s & -> & S1 & S2 & S3).
  exists m, M, n, N, s.
  split; [reflexivity|]. split; [reflexivity|]. split; [reflexivity|].
  split; [reflexivity|]. split; [reflexivity|].
  split; [lra|]. split; [lra|].
  split; [destruct S3 as [-> | ->]; [left | right]; lra|].
  split; [|repeat split].
  - intros r la lo Hr Ea Eo. split.
    + apply Ba. rewrite <- Ea. now apply (in_map lat (a :: l)).
    + apply Bo. rewrite <- Eo. now apply (in_map lng (a :: l)).
  - change (lat a :: map lat l) with (map lat (a :: l)) in Im.
    apply in_map_iff in Im as (r & E & I). eauto.
  - change (lat a :: map lat l) with (map lat (a :: l)) in IM.
    apply in_map_iff in IM as (r & E & I). eauto.
  - change (lng a :: map lng l) with (map lng (a :: l)) in In_.
    apply in_map_iff in In_ as (r & E & I). eauto.
  - change (lng a :: map lng l) with (map lng (a :: l)) in IN.
    apply in_map_iff in IN as (r & E & I). eauto.
Qed.

Lemma zoom_span_antitone a b rest a' b' rest' isMobile s s' :
  Spec.span (a :: b :: rest) = Num s ->
  Spec.span (a' :: b' :: rest') = Num s' ->
  (s <= s')%Q ->
  (zoom (mapBounds (a' :: b' :: rest') isMobile)
   <= zoom (mapBounds (a :: b :: rest) isMobile))%Z.
Proof.
  intros Hs Hs' Hle. rewrite !mapBounds_zoom_span, Hs, Hs'.
  repeat match goal with
         | |- context [num_ltb (Num ?x) (Num ?c)] =>
             destruct (num_ltb_cases x c) as [[-> ?]|[-> ?]]
         end;
    try (exfalso; lra); destruct isMobile; lia.
Qed.

Lemma zoom_small_span a b rest isMobile s :
  Spec.span (a :: b :: rest) = Num s -> (s < 0.01)%Q ->
  zoom (mapBounds (a :: b :: rest) isMobile) = (if isMobile then 11 else 13)%Z.
Proof.
  intros Hs H. rewrite mapBounds_zoom_span, Hs.
  destruct (num_ltb_cases s 0.01) as [[-> _]|[_ ?]]; [reflexivity | lra].
Qed.

Lemma valid_store_incl l l' :
  incl l l' -> Spec.valid_store l' = true -> Spec.valid_store l = true.
Proof.
  unfold Spec.valid_store. rewrite !forallb_forall. auto.
Qed.

(** The span of a list of valid records does not exceed the span of a list
    that holds all of its records. *)
Lemma span_incl a l a' l' :
  Spec.valid_store (a' :: l') = true -> incl (a :: l) (a' :: l') ->
  exists s s', Spec.span (a :: l) = Num s /\ Spec.span (a' :: l') = Num s'
               /\ (0 <= s <= s')%Q.
Proof.
  intros V' I. pose proof (valid_store_incl _ _ I V') as V.
  destruct (span_extent a l V)
    as (m & M & n & N & s & _ & _ & _ & _ & Hs & S1 & S2 & S3 & B
        & (rm & Im & Em) & (rM & IM & EM) & (rn & In_ & En) & (rN & IN & EN)).
  destruct (span_extent a' l' V')
    as (m' & M' & n' & N' & s' & _ & _ & _ & _ & Hs' & S1' & S2' & _ & B' & _).
  exists s, s'. split; [exact Hs|]. split; [exact Hs'|].
  assert (Fin : forall r, In r (a :: l) ->
            exists la lo, lat r = Num la /\ lng r = Num lo).
  { intros r Hr. unfold Spec.valid_store in V. rewrite forallb_forall in V.
    destruct (valid_location_finite r (V r Hr)) as (la & lo & ? & ? & _).
    eauto. }
  destruct (Fin rm Im) as (? & lo1 & E1 & F1). rewrite Em in E1.
  inversion E1; subst.
  destruct (Fin rM IM) as (? & lo2 & E2 & F2). rewrite EM in E2.
  inversion E2; subst.
  destruct (Fin rn In_) as (la3 & ? & F3 & E3). rewrite En in E3.
  inversion E3; subst.
  destruct (Fin rN IN) as (la4 & ? & F4 & E4). rewrite EN in E4.
  inversion E4; subst.
  pose proof (B rm _ _ Im Em F1) as [? _].
  pose proof (B rM _ _ IM EM F2) as [? _].
  pose proof (B rn _ _ In_ F3 En) as [_ ?].
  pose proof (B rN _ _ IN F4 EN) as [_ ?].
  pose proof (B' rm _ _ (I _ Im) Em F1) as [? _].
  pose proof (B' rM _ _ (I _ IM) EM F2) as [? _].
  pose proof (B' rn _ _ (I _ In_) F3 En) as [_ ?].
  pose proof (B' rN _ _ (I _ IN) F4 EN) as [_ ?].
  destruct S3 as [S3 | S3]; rewrite S3; lra.
Qed.

Lemma span_singleton p :
  Spec.valid_location p = true ->
  exists s, Spec.span [p] = Num s /\ (s == 0)%Q.
Proof.
  intros V. destruct (valid_location_finite p V) as (la & lo & Ea & Eo & _).
  unfold Spec.span, Spec.latSpan, Spec.lngSpan. cbn. rewrite Ea, Eo. cbn.
  destruct (Qle_bool (lo + - lo) (la + - la)); cbn;
    eexists; (split; [reflexivity | lra]).
Qed.

(** For lists of valid records, the zoom never grows when records are
    added: a list with two or more records is shown at a zoom that is at
    least the zoom of any list that holds all of its records.  So adding a
    record to two or more never zooms in, deleting one never zooms out while
    two or more are left, and two lists of two or more records that hold the
    same records, in any order, get the same zoom. *)
Theorem mapBounds_zoom_antitone (l l' : list MapLocation) (isMobile : bool) :
  Spec.valid_store l' = true ->
  2 <= length l ->
  incl l l' ->
  (zoom (mapBounds l' isMobile) <= zoom (mapBounds l isMobile))%Z
  /\ (2 <= length l' -> incl l' l ->
      zoom (mapBounds l' isMobile) = zoom (mapBounds l isMobile)).
Proof.
  intros V' Hl I.
  destruct l as [|a [|b rest]]; cbn [length] in Hl; try lia. clear Hl.
  assert (Le : forall l2 l1 a1 b1 r1 a2 b2 r2,
             l1 = a1 :: b1 :: r1 -> l2 = a2 :: b2 :: r2 ->
             Spec.valid_store l2 = true -> incl l1 l2 ->
             (zoom (mapBounds l2 isMobile) <= zoom (mapBounds l1 isMobile))%Z).
  { intros l2 l1 a1 b1 r1 a2 b2 r2 -> -> V2 I12.
    destruct (span_incl _ _ _ _ V2 I12) as (s & s' & Hs & Hs' & _ & Hle).
    now apply (zoom_span_antitone _ _ _ _ _ _ _ s s'). }
  split.
  - destruct l' as [|a' [|b' rest']].
    + destruct (I a (or_introl eq_refl)).
    + destruct (span_incl _ _ _ _ V' I) as (s & s' & Hs & Hs' & H0 & Hle).
      assert (Vp : Spec.valid_location a' = true).
      { cbn in V'. now rewrite andb_true_r in V'. }
      destruct (span_singleton a' Vp) as (z & Hz & Ez).
      rewrite Hs' in Hz. inversion Hz; subst z.
      rewrite (zoom_small_span a b rest isMobile s Hs) by lra.
      destruct isMobile; cbn; lia.
    + now apply (Le _ _ a b rest a' b' rest').
  - intros Hl' I'.
    destruct l' as [|a' [|b' rest']]; cbn [length] in Hl'; try lia.
    apply Z.le_antisymm.
    + now apply (Le _ _ a b rest a' b' rest').
    + apply (Le _ _ a' b' rest' a b rest); auto.
      exact (valid_store_incl _ _ I V').
Qed.

Lemma mapBounds_zoom_antitone_witness :
  (zoom (mapBounds defaultLocations false)
   <= zoom (mapBounds (firstn 2 defaultLocations) false))%Z.
Proof.
  apply (mapBounds_zoom_antitone (firstn 2 defaultLocations) defaultLocations
           false).
  - reflexivity.
  - cbn. lia.
  - intros r [H | [H | []]]; [left | right; left]; exact H.
Defined.

(** Two or more valid records at one and the same position are shown
    at the closest zoom, 13 and 11 in compact mode, although a single record
    at that position is shown at zoom 10 and 8: adding a second record at the
    position of the only one zooms in.  The center is that position. *)
Theorem mapBounds_coincident (p : MapLocation) (l : list MapLocation)
  (isMobile : bool) :
  Spec.valid_store (p :: l) = true ->
  1 <= length l ->
  (forall r, In r l -> lat r = lat p /\ lng r = lng p) ->
  zoom (mapBounds (p :: l) isMobile) = (if isMobile then 11 else 13)%Z
  /\ zoom (mapBounds [p] isMobile) = (if isMobile then 8 else 10)%Z
  /\ num_eqb (fst (center (mapBounds (p :: l) isMobile))) (lat p) = true
  /\ num_eqb (snd (center (mapBounds (p :: l) isMobile))) (lng p) = true.
Proof.
  intros V Hl Same.
  destruct l as [|b rest]; cbn [length] in Hl; [lia|]. clear Hl.
  destruct (span_extent p (b :: rest) V)
    as (m & M & n & N & s & Hm & HM & Hn & HN & Hs & S1 & S2 & S3 & _
        & (rm & Im & Em) & (rM & IM & EM) & (rn & In_ & En) & (rN & IN & EN)).
  assert (All : forall r, In r (p :: b :: rest) ->
            lat r = lat p /\ lng r = lng p).
  { intros r [<- | Hr]; [split; reflexivity | now apply Same]. }
  assert (Vp : Spec.valid_location p = true).
  { cbn [Spec.valid_store forallb] in V. now apply andb_true_iff in V as [V _]. }
  destruct (valid_location_finite p Vp) as (la & lo & Ea & Eo & _).
  destruct (All rm Im) as [A1 _]. destruct (All rM IM) as [A2 _].
  destruct (All rn In_) as [_ A3]. destruct (All rN IN) as [_ A4].
  rewrite Em, Ea in A1. rewrite EM, Ea in A2.
  rewrite En, Eo in A3. rewrite EN, Eo in A4.
  inversion A1; inversion A2; inversion A3; inversion A4; subst.
  split; [|split; [destruct isMobile; reflexivity|]].
  - apply (zoom_small_span p b rest isMobile s Hs).
    destruct S3 as [S3 | S3]; rewrite S3; lra.
  - cbn [mapBounds center fst snd].
    change (lat p :: lat b :: map lat rest) with (map lat (p :: b :: rest)).
    change (lng p :: lng b :: map lng rest) with (map lng (p :: b :: rest)).
    rewrite Hm, HM, Hn, HN, Ea, Eo. cbn [num_add num_half num_eqb].
    split; apply Qeq_bool_iff; field.
Qed.

Lemma mapBounds_coincident_witness :
  zoom (mapBounds [Example.place 48.8566 2.3522 (lit "Paris");
                   Example.place 48.8566 2.3522 (lit "Louvre")] false) = 13%Z
  /\ zoom (mapBounds [Example.place 48.8566 2.3522 (lit "Paris")] false)
     = 10%Z.
Proof.
  destruct (mapBounds_coincident
              (Example.place 48.8566 2.3522 (lit "Paris"))
              [Example.place 48.8566 2.3522 (lit "Louvre")] false)
    as (H1 & H2 & _).
  - reflexivity.
  - cbn. lia.
  - intros r [<- | []]. split; reflexivity.
  - split; [exact H1 | exact H2].
Defined.



(** ** Sharing and loading *)




(** ** Adding on the map *)

(** Outside adding mode a click on the map changes nothing.  In adding
    mode it puts the pending marker with its form at the clicked position;
    submitting the form with a name that is blank after trimming changes
    nothing; submitting it with another name appends one record with the
    clicked coordinates as they are, the trimmed name and the trimmed
    description (none when blank), leaves adding mode and removes the pending
    marker, so that further clicks on the map are ignored. *)
Theorem map_add_flow (u : UI.UI) (la lo : number) (n d : jsstring) :
  (isMapAddingMode (UI.app u) = false -> UI.mapClick la lo u = u)
  /\ (isMapAddingMode (UI.app u) = true ->
      let u1 := UI.mapClick la lo u in
      let u2 := UI.submitPendingForm n d u1 in
      UI.pending_form_rendered u1 = true
      /\ UI.app u1 = UI.app u
      /\ (truthy (trim n) = false -> u2 = u1)
      /\ (truthy (trim n) = true ->
          mapLocations (UI.app u2)
          = mapLocations (UI.app u)
            ++ [{| lat := la; lng := lo; name := trim n;
                   description :=
                     if truthy (trim d) then Some (trim d) else None |}]
          /\ isMapAddingMode (UI.app u2) = false
          /\ UI.pending_form_rendered u2 = false
          /\ forall la' lo', UI.mapClick la' lo' u2 = u2)).
Proof.
  unfold UI.mapClick, UI.submitPendingForm, UI.pending_form_rendered,
    MapComponent.ClickHandler_click, MapComponent.LocationForm_handleSubmit.
  split; intros M; rewrite M.
  - now destruct u.
  - cbv zeta. cbn [UI.pendingLocation UI.app]. rewrite M.
    split; [reflexivity|]. split; [reflexivity|].
    split; intros T; rewrite T; [reflexivity|].
    cbn [UI.pendingLocation UI.app handleMapAddLocation mapLocations
         isMapAddingMode fst snd].
    repeat split.
Qed.

Lemma map_add_flow_witness :
  let u := UI.with_app (Panel.clickAddButton (initialState false))
                       (UI.initial false) in
  let u2 := UI.submitPendingForm (lit " Oslo ") [] (UI.mapClick (Num 60) (Num 11) u) in
  mapLocations (UI.app u2)
  = defaultLocations
    ++ [{| lat := Num 60; lng := Num 11; name := trim (lit " Oslo ");
           description := if truthy (trim []) then Some (trim []) else None |}]
  /\ isMapAddingMode (UI.app u2) = false.
Proof.
  cbv zeta.
  destruct (proj2 (map_add_flow
                     (UI.with_app (Panel.clickAddButton (initialState false))
                                  (UI.initial false))
                     (Num 60) (Num 11) (lit " Oslo ") []) eq_refl)
    as (_ & _ & _ & H).
  destruct (H eq_refl) as (H1 & H2 & _).
  split; [exact H1 | exact H2].
Defined.

(** ** The trip card *)





(** ** The profile form *)






(** ** The trip form *)

(** Submitting the trip form calls [onSubmit] exactly when the title, the
    destination and the two dates are not empty; nothing is trimmed, so a
    title of one space passes, and the dates are not compared.  The trip
    passed on is the form data as it is; the form is then emptied, so that
    submitting again passes nothing on.  A submit that is refused leaves the
    form data unchanged. *)
Theorem trip_submit (formData : AddTripForm.FormData) :
  let required :=
    AddTripForm.title formData <> [] /\ AddTripForm.destination formData <> []
    /\ AddTripForm.startDate formData <> []
    /\ AddTripForm.endDate formData <> [] in
  (required ->
     AddTripForm.handleSubmit formData = (AddTripForm.emptyForm, Some formData)
     /\ AddTripForm.handleSubmit AddTripForm.emptyForm
        = (AddTripForm.emptyForm, None))
  /\ (~ required -> AddTripForm.handleSubmit formData = (formData, None)).
Proof.
  cbv zeta. unfold AddTripForm.handleSubmit. rewrite <- !truthy_true.
  destruct (truthy (AddTripForm.title formData)),
    (truthy (AddTripForm.destination formData)),
    (truthy (AddTripForm.startDate formData)),
    (truthy (AddTripForm.endDate formData)); cbn [andb];
    split; try tauto;
    try (intros (? & ? & ? & ?); discriminate);
    try (intros _; reflexivity).
Qed.
